(** * Joke-Repo: the badge generator script (main.js, both variants)

    A shallow embedding of the pure helpers ([escapeSvg], [wrapText],
    the SVG document of [writeSvg]), of the category rotation, of the
    text providers and of [generateWithFallback], followed by the
    properties of the specification that concern them. *)

From Stdlib Require Import Strings.String Strings.Ascii.
From Stdlib Require Import List NArith ZArith QArith Qround Lia Bool.
From Stdlib Require Import Sorting.Permutation.
Import ListNotations.
Open Scope nat_scope.

(* ================================================================== *)
(** * JavaScript strings *)

(** A JavaScript string is a sequence of UTF-16 code units; [length]
    counts code units. *)
Abbreviation js_string := (list N) (only parsing).

(** An ASCII literal as a JavaScript string. *)
Definition str (s : String.string) : js_string :=
  map Ascii.N_of_ascii (String.list_ascii_of_string s).
Arguments str s%_string.

Definition SP : N := 32%N.
Definition LF : N := 10%N.
Definition DQ : N := 34%N.
Definition AMP : N := 38%N.
Definition LT : N := 60%N.
Definition GT : N := 62%N.

(** [s] wrapped in double quotes. *)
Definition quoted (s : String.string) : js_string := DQ :: str s ++ [DQ].
Arguments quoted s%_string.

(** The code units that [String.prototype.trim] removes: WhiteSpace and
    LineTerminator of ECMAScript (TAB, LF, VT, FF, CR, SP, NBSP, the
    Unicode Zs category, LS, PS and ZWNBSP). *)
Definition is_white_space (c : N) : bool :=
  ((9 <=? c) && (c <=? 13) || (c =? 32) || (c =? 160) || (c =? 5760)
   || (8192 <=? c) && (c <=? 8202) || (c =? 8232) || (c =? 8233)
   || (c =? 8239) || (c =? 8287) || (c =? 12288) || (c =? 65279))%N.

Fixpoint trimStart (s : js_string) : js_string :=
  match s with
  | [] => []
  | c :: s' => if is_white_space c then trimStart s' else s
  end.

Fixpoint trimEnd (s : js_string) : js_string :=
  match s with
  | [] => []
  | c :: s' =>
      match trimEnd s' with
      | [] => if is_white_space c then [] else [c]
      | t => c :: t
      end
  end.

(** [s.trim()]. *)
Definition trim (s : js_string) : js_string := trimStart (trimEnd s).

(** [s.split(" ")]: the maximal space-free pieces, empty ones included;
    the empty string gives one empty piece. *)
Fixpoint split_space (s : js_string) : list js_string :=
  match s with
  | [] => [[]]
  | c :: s' =>
      if (c =? SP)%N then [] :: split_space s'
      else match split_space s' with
           | w :: ws => (c :: w) :: ws
           | [] => [[c]]
           end
  end.

(** [xs.join(sep)]. *)
Fixpoint join (sep : js_string) (xs : list js_string) : js_string :=
  match xs with
  | [] => []
  | [x] => x
  | x :: rest => x ++ sep ++ join sep rest
  end.

(** [s.replace(/c/g, rep)] for a pattern that is one code unit. *)
Definition replace_all (c : N) (rep : js_string) (s : js_string) : js_string :=
  flat_map (fun x => if (x =? c)%N then rep else [x]) s.

(** Truthiness of a string: the empty string is falsy. *)
Definition truthy (s : js_string) : bool :=
  match s with [] => false | _ => true end.

(** Decimal digits of a number, as template literals print them. *)
Fixpoint uint_units (d : Decimal.uint) : js_string :=
  match d with
  | Decimal.Nil => []
  | Decimal.D0 d => 48%N :: uint_units d
  | Decimal.D1 d => 49%N :: uint_units d
  | Decimal.D2 d => 50%N :: uint_units d
  | Decimal.D3 d => 51%N :: uint_units d
  | Decimal.D4 d => 52%N :: uint_units d
  | Decimal.D5 d => 53%N :: uint_units d
  | Decimal.D6 d => 54%N :: uint_units d
  | Decimal.D7 d => 55%N :: uint_units d
  | Decimal.D8 d => 56%N :: uint_units d
  | Decimal.D9 d => 57%N :: uint_units d
  end.

Definition show_nat (n : nat) : js_string := uint_units (Nat.to_uint n).

(* ================================================================== *)
(** * Helpers shared by the two variants of main.js *)

(** [escapeSvg]: three global replacements, in the order of the source. *)
Definition escapeSvg (text : js_string) : js_string :=
  replace_all GT (str "&gt;")
    (replace_all LT (str "&lt;")
       (replace_all AMP (str "&amp;") text)).

(** State of the loop of [wrapText]: the lines pushed so far and the
    line under construction. *)
Abbreviation wrap_state :=
  (list js_string * js_string)%type (only parsing).

(** One iteration of [for (const word of words)]. *)
Definition wrap_step (maxChars : nat) (st : wrap_state) (word : js_string)
  : wrap_state :=
  let '(lines, line) := st in
  if maxChars <? length (line ++ word)
  then (lines ++ [trim line], word ++ [SP])
  else (lines, line ++ word ++ [SP]).

(** [wrapText(text, maxChars)]. *)
Definition wrapText (text : js_string) (maxChars : nat) : list js_string :=
  let words := split_space text in
  let '(lines, line) := fold_left (wrap_step maxChars) words ([], []) in
  if truthy (trim line) then lines ++ [trim line] else lines.

(** The default of the parameter [maxChars]. *)
Definition default_maxChars : nat := 90.

(** [xs.map((l, i) => f(l, i))], the index counted from [i0]. *)
Fixpoint mapi_from {A B : Type} (f : A -> nat -> B) (i0 : nat) (xs : list A)
  : list B :=
  match xs with
  | [] => []
  | x :: rest => f x i0 :: mapi_from f (S i0) rest
  end.

(** The template literal mapped over the wrapped lines by [writeSvg]. *)
Definition textLine (l : js_string) (i : nat) : js_string :=
  str "<text x=" ++ quoted "20" ++ str " y=" ++ [DQ] ++ show_nat (60 + i * 22)
  ++ [DQ] ++ str " class=" ++ quoted "text" ++ str ">" ++ escapeSvg l
  ++ str "</text>".

(** The [svg] string of [writeSvg]; the two variants differ in the base
    height only ([70] in the first, [60] in the second). *)
Definition svgDocument (baseHeight : nat)
  (title content accent dateStr : js_string) : js_string :=
  let lines := wrapText content default_maxChars in
  let height := baseHeight + length lines * 22 in
  let textLines := join [LF] (mapi_from textLine 0 lines) in
  trim
    ([LF]
     ++ str "<svg xmlns=" ++ quoted "http://www.w3.org/2000/svg"
     ++ str " width=" ++ quoted "900" ++ str " height=" ++ [DQ]
     ++ show_nat height ++ [DQ] ++ str ">" ++ [LF]
     ++ str "  <style>" ++ [LF]
     ++ str "    .bg { fill: #0d1117; }" ++ [LF]
     ++ str "    .title { font: 700 16px monospace; fill: " ++ accent
     ++ str "; }" ++ [LF]
     ++ str "    .text { font: 14px monospace; fill: #c9d1d9; }" ++ [LF]
     ++ str "    .date { font: 12px monospace; fill: #8b949e; }" ++ [LF]
     ++ str "  </style>" ++ [LF]
     ++ str "  <rect width=" ++ quoted "100%" ++ str " height="
     ++ quoted "100%" ++ str " class=" ++ quoted "bg" ++ str "/>" ++ [LF]
     ++ str "  <text x=" ++ quoted "20" ++ str " y=" ++ quoted "28"
     ++ str " class=" ++ quoted "title" ++ str ">" ++ title
     ++ str "</text>" ++ [LF]
     ++ str "  <text x=" ++ quoted "880" ++ str " y=" ++ quoted "28"
     ++ str " text-anchor=" ++ quoted "end" ++ str " class="
     ++ quoted "date" ++ str ">" ++ dateStr ++ str "</text>" ++ [LF]
     ++ str "  " ++ textLines ++ [LF]
     ++ str "</svg>" ++ [LF]).

(** A file written by [fs.writeFileSync]. *)
Record file_write : Type := { fw_name : js_string; fw_data : js_string }.

(* ================================================================== *)
(** * Category rotation *)

Definition CATEGORY_ROTATION : list js_string :=
  [ str "business"; str "entertainment"; str "general"; str "health";
    str "science"; str "sports"; str "technology" ].

(** A [Date] is represented by its local time value, in milliseconds
    since the epoch. *)
Definition Date : Type := Z.

Definition msPerDay : Z := 86400000%Z.

(** [Date.prototype.getDay]: WeekDay(t) = (Day(t) + 4) modulo 7, with
    Day(t) = floor(t / msPerDay); 0 is Sunday. *)
Definition getDay (today : Date) : nat :=
  Z.to_nat ((today / msPerDay + 4) mod 7)%Z.

(** [CATEGORY_ROTATION[today.getDay()]]; [None] stands for [undefined]. *)
Definition category (today : Date) : option js_string :=
  nth_error CATEGORY_ROTATION (getDay today).

(** The date [k] days after [today]. *)
Definition addDays (today : Date) (k : nat) : Date :=
  (today + Z.of_nat k * msPerDay)%Z.

(* ================================================================== *)
(** * Effects: thrown errors and an ordered trace *)

Inductive provider : Type := Groq | Gemini.

(** [new Error(message)]. *)
Record error : Type := Error { message : js_string }.

(** A string or [undefined]. *)
Inductive value : Type :=
| VString (s : js_string)
| VUndefined.

(** What a run leaves behind, in order: entries into the provider
    functions and the [console.warn] calls. *)
Inductive event : Type :=
| Call (p : provider) (prompt : js_string)
| WarnFailed (p : provider) (msg : js_string)
| WarnLocal (fallback : value).

(** A computation that returns or throws, with its trace. *)
Definition M (A : Type) : Type := ((error + A) * list event)%type.

Definition ret {A} (a : A) : M A := (inr a, []).
Definition throw {A} (e : error) : M A := (inl e, []).
Definition emit (ev : event) : M unit := (inr tt, [ev]).

(** [await] of a promise that is already settled. *)
Definition await {A} (r : error + A) : M A := (r, []).

Definition bind {A B} (m : M A) (k : A -> M B) : M B :=
  match m with
  | (inl e, t) => (inl e, t)
  | (inr a, t) => let '(r, t') := k a in (r, t ++ t')
  end.

(** [try { m } catch (e) { h(e) }]. *)
Definition try_catch {A} (m : M A) (h : error -> M A) : M A :=
  match m with
  | (inl e, t) => let '(r, t') := h e in (r, t ++ t')
  | (inr a, t) => (inr a, t)
  end.

Notation "x <- m ;; k" := (bind m (fun x => k))
  (at level 61, m at next level, right associativity).
Notation "m ;; k" := (bind m (fun _ => k))
  (at level 61, right associativity).

Definition outcome {A} (m : M A) : error + A := fst m.
Definition trace {A} (m : M A) : list event := snd m.

(** Optional chaining [o?.f]. *)
Definition opt {A B} (o : option A) (f : A -> option B) : option B :=
  match o with Some a => f a | None => None end.

(** [xs[0]]. *)
Definition first {A} (xs : list A) : option A := nth_error xs 0.

(* ---- payloads of the backends ---- *)

(** A chunk of the Groq chat completion stream. *)
Record delta : Type := { content : option js_string }.
Record choice : Type := { delta_of : option delta }.
Record chunk : Type := { choices : list choice }.

(** The response of [geminiAI.models.generateContent]. *)
Record part : Type := { text : option js_string }.
Record gcontent : Type := { parts : option (list part) }.
Record candidate : Type := { gcontent_of : option gcontent }.
Record gemini_response : Type := { candidates : option (list candidate) }.

(** The JSON of the Groq completions endpoint. *)
Record groq_data : Type := { output_text : option js_string }.

(** The JSON of the news endpoints. *)
Record article : Type := { title : option js_string }.
Record news_data : Type := { articles : option (list article) }.

(** [res.candidates?.[0]?.content?.parts?.[0]?.text?.trim()]. *)
Definition gemini_text (res : gemini_response) : option js_string :=
  option_map trim
    (opt (opt (opt (opt (candidates res) first) gcontent_of) parts)
       (fun ps => opt (first ps) text)).

(** [if (!text) throw ...]: [undefined] and the empty string are falsy. *)
Definition falsy (t : option js_string) : bool :=
  match t with Some s => negb (truthy s) | None => true end.

(** [data?.articles?.[0]?.title]. *)
Definition first_title (data : option news_data) : value :=
  match opt (opt (opt data articles) first) title with
  | Some s => VString s
  | None => VUndefined
  end.

(* ================================================================== *)
(** * First variant of main.js: Groq SDK first, Gemini second, news *)

Module VariantA.

(** The environment of one run: which keys are set and what each
    backend answers to a request. *)
Record env : Type := {
  groq : bool;                       (* GROQ_API_KEY set: client created *)
  geminiAI : bool;                   (* GEMINI_API_KEY set: client created *)
  NEWS_API_KEY : bool;
  NEWS_API_KEY_2 : bool;
  groq_create : js_string -> error + list chunk;
  gemini_generateContent : js_string -> error + gemini_response;
  newsapi_fetch : js_string -> error + option news_data;
  gnews_fetch : js_string -> error + option news_data
}.

Section Run.
Variable E : env.

Definition writeSvg (filename title content accent dateStr : js_string)
  : file_write :=
  {| fw_name := filename;
     fw_data := svgDocument 70 title content accent dateStr |}.

(** [chunk.choices[0]?.delta?.content || ""]. *)
Definition chunk_content (c : chunk) : js_string :=
  match opt (opt (first (choices c)) delta_of) content with
  | Some s => s
  | None => []
  end.

Definition generateGroq (prompt : js_string) : M js_string :=
  emit (Call Groq prompt) ;;
  if negb (groq E) then throw (Error (str "No GROQ key")) else
  chatCompletion <- await (groq_create E prompt) ;;
  let result :=
    fold_left (fun result c => result ++ chunk_content c) chatCompletion [] in
  if negb (truthy result) then throw (Error (str "Empty Groq response"))
  else ret (replace_all LF [SP] result).

Definition generateGemini (prompt : js_string) : M js_string :=
  emit (Call Gemini prompt) ;;
  if negb (geminiAI E) then throw (Error (str "No GEMINI key")) else
  res <- await (gemini_generateContent E prompt) ;;
  match gemini_text res with
  | Some t =>
      if truthy t then ret (replace_all LF [SP] t)
      else throw (Error (str "Empty Gemini response"))
  | None => throw (Error (str "Empty Gemini response"))
  end.

Definition generateWithFallback (prompt : js_string) : M js_string :=
  try_catch (generateGroq prompt)
    (fun e =>
       emit (WarnFailed Groq (message e)) ;;
       if geminiAI E then generateGemini prompt else throw e).

Definition fetchNewsAPI (category : js_string) : M value :=
  if negb (NEWS_API_KEY E) then throw (Error (str "No NewsAPI")) else
  data <- await (newsapi_fetch E category) ;;
  ret (first_title data).

Definition fetchGNews (category : js_string) : M value :=
  if negb (NEWS_API_KEY_2 E) then throw (Error (str "No GNews")) else
  data <- await (gnews_fetch E category) ;;
  ret (first_title data).

End Run.
End VariantA.

(* ================================================================== *)
(** * Second variant of main.js: Gemini first, Groq over HTTP second,
      then a local fallback list *)

Module VariantB.

Record env : Type := {
  geminiAI : bool;                   (* GEMINI_API_KEY set: client created *)
  GROQ_API_KEY : bool;
  gemini_generateContent : js_string -> error + gemini_response;
  groq_fetch : js_string -> error + option groq_data;
  Math_random : Q                    (* the draw of Math.random() *)
}.

Section Run.
Variable E : env.

Definition writeSvg (filename title content accent dateStr : js_string)
  : file_write :=
  {| fw_name := filename;
     fw_data := svgDocument 60 title content accent dateStr |}.

Definition generateGemini (prompt : js_string) : M js_string :=
  emit (Call Gemini prompt) ;;
  if negb (geminiAI E) then throw (Error (str "No GEMINI key")) else
  res <- await (gemini_generateContent E prompt) ;;
  match gemini_text res with
  | Some t =>
      if truthy t then ret (replace_all LF [SP] t)
      else throw (Error (str "Empty Gemini response"))
  | None => throw (Error (str "Empty Gemini response"))
  end.

(** [data?.output_text?.trim()]. *)
Definition groq_text (data : option groq_data) : option js_string :=
  option_map trim (opt data output_text).

Definition generateGroq (prompt : js_string) : M js_string :=
  emit (Call Groq prompt) ;;
  if negb (GROQ_API_KEY E) then throw (Error (str "No GROQ key")) else
  data <- await (groq_fetch E prompt) ;;
  match groq_text data with
  | Some t =>
      if truthy t then ret (replace_all LF [SP] t)
      else throw (Error (str "Empty Groq response"))
  | None => throw (Error (str "Empty Groq response"))
  end.

(** [xs[Math.floor(r * xs.length)]]; an index outside the array reads
    [undefined]. *)
Definition random_entry (r : Q) (xs : list js_string) : value :=
  let k := Qfloor (r * inject_Z (Z.of_nat (length xs))) in
  if (k <? 0)%Z then VUndefined
  else match nth_error xs (Z.to_nat k) with
       | Some s => VString s
       | None => VUndefined
       end.

Definition generateWithFallback (prompt : js_string)
  (localFallback : list js_string) : M value :=
  try_catch (t <- generateGemini prompt ;; ret (VString t))
    (fun e1 =>
       emit (WarnFailed Gemini (message e1)) ;;
       try_catch (t <- generateGroq prompt ;; ret (VString t))
         (fun e2 =>
            emit (WarnFailed Groq (message e2)) ;;
            let fallback := random_entry (Math_random E) localFallback in
            emit (WarnLocal fallback) ;;
            ret fallback)).

End Run.
End VariantB.

(* ================================================================== *)
(** * Files and the helpers that read them *)

(** The files of the working directory: names and contents.  A file is
    represented by the string that [fs.readFileSync(file, "utf8")]
    returns for it, which is the string written for text without lone
    surrogates; file operations are taken to succeed. *)
Abbreviation fs_state := (list (js_string * js_string)) (only parsing).

(** [a === b] on strings. *)
Fixpoint str_eqb (a b : js_string) : bool :=
  match a, b with
  | [], [] => true
  | x :: a', y :: b' => (x =? y)%N && str_eqb a' b'
  | _, _ => false
  end.

Fixpoint readFile (fs : fs_state) (file : js_string) : option js_string :=
  match fs with
  | [] => None
  | (name, data) :: rest =>
      if str_eqb name file then Some data else readFile rest file
  end.

(** [fs.existsSync(file)]. *)
Definition existsSync (fs : fs_state) (file : js_string) : bool :=
  match readFile fs file with Some _ => true | None => false end.

(** [fs.writeFileSync(file, data)]: creates the file or replaces its
    content. *)
Fixpoint writeFileSync (fs : fs_state) (file data : js_string) : fs_state :=
  match fs with
  | [] => [(file, data)]
  | (name, old) :: rest =>
      if str_eqb name file then (name, data) :: rest
      else (name, old) :: writeFileSync rest file data
  end.

(** [fs.appendFileSync(file, data)]: creates the file when it is
    missing. *)
Definition appendFileSync (fs : fs_state) (file data : js_string) : fs_state :=
  match readFile fs file with
  | Some old => writeFileSync fs file (old ++ data)
  | None => writeFileSync fs file data
  end.

(** [s.split(sep)] for a separator that is one code unit. *)
Fixpoint split_unit (sep : N) (s : js_string) : list js_string :=
  match s with
  | [] => [[]]
  | c :: s' =>
      if (c =? sep)%N then [] :: split_unit sep s'
      else match split_unit sep s' with
           | w :: ws => (c :: w) :: ws
           | [] => [[c]]
           end
  end.

(** [getLastLine(file)], the same in both variants. *)
Definition getLastLine (fs : fs_state) (file : js_string) : js_string :=
  if negb (existsSync fs file) then []
  else match readFile fs file with
       | None => []
       | Some content =>
           let lines := split_unit LF (trim content) in
           match nth_error lines (length lines - 1) with
           | Some l => if truthy l then l else []
           | None => []
           end
       end.

(** A template literal prints [undefined] as the word. *)
Definition show (v : value) : js_string :=
  match v with
  | VString s => s
  | VUndefined => str "undefined"
  end.

(* ================================================================== *)
(** * Runs of the scripts *)

(** What a run prints: the calls and warnings of the providers, and the
    [console.log] and [console.error] calls of the script. *)
Inductive output : Type :=
| Ev (e : event)
| ConsoleLog (args : list value)
| ConsoleError (text : js_string) (err : option error).

Record world : Type := { files : fs_state; console : list output }.

(** How a computation stops short: an exception, or [process.exit]. *)
Inductive stop : Type :=
| Thrown (e : error)
| Exited (code : nat).

Definition IO (A : Type) : Type := world -> (stop + A) * world.

Definition io_ret {A} (a : A) : IO A := fun w => (inr a, w).
Definition io_throw {A} (e : error) : IO A := fun w => (inl (Thrown e), w).

(** [process.exit(code)]. *)
Definition io_exit {A} (code : nat) : IO A := fun w => (inl (Exited code), w).

Definition io_bind {A B} (m : IO A) (k : A -> IO B) : IO B :=
  fun w =>
    match m w with
    | (inl s, w') => (inl s, w')
    | (inr a, w') => k a w'
    end.

(** [try { m } catch (e) { h(e) }]; [process.exit] is not caught. *)
Definition io_try_catch {A} (m : IO A) (h : error -> IO A) : IO A :=
  fun w =>
    match m w with
    | (inl (Thrown e), w') => h e w'
    | r => r
    end.

Definition print (o : output) : IO unit :=
  fun w => (inr tt, {| files := files w; console := console w ++ [o] |}).

(** A provider computation run inside the script: its trace goes to the
    console. *)
Definition io_lift {A} (m : M A) : IO A :=
  fun w =>
    let w' := {| files := files w; console := console w ++ map Ev (trace m) |} in
    match outcome m with
    | inl e => (inl (Thrown e), w')
    | inr a => (inr a, w')
    end.

Definition io_appendFile (file data : js_string) : IO unit :=
  fun w => (inr tt, {| files := appendFileSync (files w) file data;
                       console := console w |}).

Definition io_writeFile (file data : js_string) : IO unit :=
  fun w => (inr tt, {| files := writeFileSync (files w) file data;
                       console := console w |}).

Definition io_getLastLine (file : js_string) : IO js_string :=
  fun w => (inr (getLastLine (files w) file), w).

Notation "x <~ m ;; k" := (io_bind m (fun x => k))
  (at level 61, m at next level, right associativity).
Notation "m ~;; k" := (io_bind m (fun _ => k))
  (at level 61, right associativity).

(** The status the process ends with: 0 when the script runs to its
    end, the argument of [process.exit], 1 for an uncaught exception. *)
Definition exit_code {A} (r : (stop + A) * world) : nat :=
  match fst r with
  | inr _ => 0
  | inl (Exited code) => code
  | inl (Thrown _) => 1
  end.

(** [text.split] on [undefined]. *)
Definition TypeError_split : error :=
  Error (str "Cannot read properties of undefined (reading 'split')").

(** [category.toUpperCase()] on [undefined]. *)
Definition TypeError_toUpperCase : error :=
  Error (str "Cannot read properties of undefined (reading 'toUpperCase')").

(** [toUpperCase] on the letters a-z; the other code units of ASCII are
    not changed by it, and the category names hold only these letters. *)
Definition toUpperCase (s : js_string) : js_string :=
  map (fun c => if ((97 <=? c) && (c <=? 122))%N then (c - 32)%N else c) s.

(** [obj[key]] on an object literal with string values. *)
Definition property (obj : list (js_string * js_string)) (key : js_string)
  : option js_string := readFile obj key.

(* ================================================================== *)
(** * The script of the first variant *)

Module ScriptA.

(** What the run reads off the clock: [today], the date stamp
    [today.toISOString().split("T")[0]] and [today.getDate()]. *)
Record clock : Type := { today : Date; dateStr : js_string; getDate : nat }.

Definition categoryColors : list (js_string * js_string) :=
  [ (str "business", str "#ff9f1a");
    (str "entertainment", str "#ff3f7f");
    (str "general", str "#58a6ff");
    (str "health", str "#1dd3b0");
    (str "science", str "#9b5de5");
    (str "sports", str "#ff6b6b");
    (str "technology", str "#f5c518") ].

Definition jokePrompt : js_string :=
  str "Tell me a short random joke. One sentence.".

Definition reactionPrompt (headline : value) : js_string :=
  [LF] ++ str "React to this headline like a mildly tired but witty developer."
  ++ [LF] ++ str "One sentence. Slight sarcasm. No emojis." ++ [LF] ++ [LF]
  ++ [DQ] ++ show headline ++ [DQ] ++ [LF].

Section Run.
Variable E : VariantA.env.
Variable C : clock.

(** [CATEGORY_ROTATION[today.getDay()]] as a value. *)
Definition category_value : value :=
  match category (today C) with
  | Some c => VString c
  | None => VUndefined
  end.

(** [today.getDate() % 2 === 0]. *)
Definition useGNews : bool := (getDate C mod 2 =? 0).

(** [categoryColors[category] || "#58a6ff"]. *)
Definition accent_of (cat : value) : js_string :=
  match property categoryColors (show cat) with
  | Some c => if truthy c then c else str "#58a6ff"
  | None => str "#58a6ff"
  end.

(** [writeSvg] called with a content that may be [undefined]:
    [wrapText] then throws before anything is written. *)
Definition writeSvg (filename title : js_string) (content : value)
  (accent : js_string) : IO unit :=
  match content with
  | VUndefined => io_throw TypeError_split
  | VString c =>
      let f := VariantA.writeSvg filename title c accent (dateStr C) in
      io_writeFile (fw_name f) (fw_data f)
  end.

(** [useGNews ? await fetchGNews(category) : await fetchNewsAPI(category)]. *)
Definition requestHeadline : M value :=
  if useGNews then VariantA.fetchGNews E (show category_value)
  else VariantA.fetchNewsAPI E (show category_value).

Definition fetchHeadline : IO value :=
  io_try_catch (io_lift requestHeadline)
    (fun e =>
       print (ConsoleError (str "News fetch error:") (Some e)) ~;; io_exit 1).

Definition main : IO unit :=
  headline <~ fetchHeadline ;;
  joke <~ io_lift (VariantA.generateWithFallback E jokePrompt) ;;
  reaction <~
    io_lift (VariantA.generateWithFallback E (reactionPrompt headline)) ;;
  io_appendFile (str "jokes.txt")
    (str "[" ++ dateStr C ++ str "] " ++ joke ++ [LF]) ~;;
  upper <~ match category_value with
           | VString c => io_ret (toUpperCase c)
           | VUndefined => io_throw TypeError_toUpperCase
           end ;;
  io_appendFile (str "news.txt")
    (str "[" ++ dateStr C ++ str "] [" ++ upper ++ str "] " ++ show headline
     ++ [LF]) ~;;
  io_writeFile (str "reaction.txt") reaction ~;;
  last <~ io_getLastLine (str "jokes.txt") ;;
  writeSvg (str "joke.svg") (str "Daily Joke") (VString last) (str "#3fb950") ~;;
  writeSvg (str "news.svg") (str "Daily News") headline
    (accent_of category_value) ~;;
  print (ConsoleLog [VString (str "Joke:"); VString joke]) ~;;
  print (ConsoleLog [VString (str "Headline:"); headline]) ~;;
  print (ConsoleLog [VString (str "Reaction:"); VString reaction]).

(** The whole script: the key check, then [main().catch(...)]. *)
Definition script : IO unit :=
  if negb (VariantA.groq E) && negb (VariantA.geminiAI E)
     && negb (VariantA.NEWS_API_KEY E) && negb (VariantA.NEWS_API_KEY_2 E)
  then print (ConsoleError (str " Missing API keys") None) ~;; io_exit 1
  else io_try_catch main
         (fun err => print (ConsoleError [] (Some err)) ~;; io_exit 1).

End Run.
End ScriptA.

(* ================================================================== *)
(** * The script of the second variant *)

Module ScriptB.

(** The date stamps of today and of yesterday. *)
Record clock : Type := { dateStr : js_string; yesterdayStr : js_string }.

Definition jokeFallbacks : list js_string :=
  [ str "Why do programmers prefer dark mode? Because light attracts bugs.";
    str "A programmer walks into a bar and orders 1.000000119 beers.";
    str "There are only two hard things in computer science: cache invalidation and naming things." ].

Definition newsFallbacks : list js_string :=
  [ str "Tech company announces AI breakthrough, quietly ships more bugs.";
    str "Major platform promises performance improvements, users remain skeptical.";
    str "Developers celebrate new framework, rewrite everything again." ].

Definition jokePrompt : js_string :=
  str "Tell me a short programming joke. One sentence.".

Definition newsPrompt (yesterday : js_string) : js_string :=
  str "Summarize the biggest technology news from " ++ yesterday
  ++ str " in one sentence. Neutral tone. No emojis.".

(** The environment of the second call of [generateWithFallback]: the
    same keys and backends, with the draw that this call makes. *)
Definition next_draw (E : VariantB.env) (r : Q) : VariantB.env :=
  {| VariantB.geminiAI := VariantB.geminiAI E;
     VariantB.GROQ_API_KEY := VariantB.GROQ_API_KEY E;
     VariantB.gemini_generateContent := VariantB.gemini_generateContent E;
     VariantB.groq_fetch := VariantB.groq_fetch E;
     VariantB.Math_random := r |}.

Section Run.
Variable E : VariantB.env.
Variable C : clock.
(** The draw of [Math.random] in the call for the news; the one in the
    call for the joke is [Math_random E]. *)
Variable r_news : Q.

Definition writeSvg (filename title : js_string) (content : js_string)
  (accent : js_string) : IO unit :=
  let f := VariantB.writeSvg filename title content accent (dateStr C) in
  io_writeFile (fw_name f) (fw_data f).

Definition main : IO unit :=
  joke <~ io_lift (VariantB.generateWithFallback E jokePrompt jokeFallbacks) ;;
  news <~ io_lift (VariantB.generateWithFallback (next_draw E r_news)
                     (newsPrompt (yesterdayStr C)) newsFallbacks) ;;
  io_appendFile (str "jokes.txt")
    (str "[" ++ dateStr C ++ str "] " ++ show joke ++ [LF]) ~;;
  io_appendFile (str "news.txt")
    (str "[" ++ dateStr C ++ str "] " ++ show news ++ [LF]) ~;;
  lastJoke <~ io_getLastLine (str "jokes.txt") ;;
  writeSvg (str "joke.svg") (str "Daily Joke") lastJoke (str "#3fb950") ~;;
  lastNews <~ io_getLastLine (str "news.txt") ;;
  writeSvg (str "news.svg") (str "Daily Tech News") lastNews (str "#58a6ff") ~;;
  print (ConsoleLog
           [VString (str "Joke: " ++ show joke ++ str " | News: " ++ show news)]).

(** The whole script: the key check, then [main().catch(...)]. *)
Definition script : IO unit :=
  if negb (VariantB.geminiAI E) && negb (VariantB.GROQ_API_KEY E)
  then print (ConsoleError (str "Missing GEMINI_API_KEY and GROQ_API_KEY") None)
       ~;; io_exit 1
  else io_try_catch main
         (fun err => print (ConsoleError [] (Some err)) ~;; io_exit 1).

End Run.
End ScriptB.

(* ================================================================== *)
(** * Notions used to state the properties *)

(** The non-empty words of a text. *)
Definition words_of (s : js_string) : list js_string :=
  filter truthy (split_space s).

(** The text normalized to single spaces between words, as the
    specification words it: its non-empty words joined by one space. *)
Definition normalize_spaces (s : js_string) : js_string :=
  join [SP] (words_of s).

(** The content of [line] after the words of [g] were added to it. *)
Definition unwords (g : list js_string) : js_string :=
  flat_map (fun w => w ++ [SP]) g.

(** The line pushed for a group of words. *)
Definition line_of (g : list js_string) : js_string := trim (unwords g).

(** The last line, pushed only when it is truthy. *)
Definition last_line (g : list js_string) : list js_string :=
  if truthy (line_of g) then [line_of g] else [].

Fixpoint skip_empty (g : list js_string) : list js_string :=
  match g with
  | [] => []
  | w :: g' => if truthy w then g else skip_empty g'
  end.

Definition space_free (w : js_string) : Prop := ~ In SP w.

(** Occurrences of a code unit. *)
Fixpoint occ (c : N) (s : js_string) : nat :=
  match s with
  | [] => 0
  | x :: s' => (if (x =? c)%N then 1 else 0) + occ c s'
  end.

Fixpoint starts_with (p s : js_string) : bool :=
  match p, s with
  | [], _ => true
  | a :: p', b :: s' => (a =? b)%N && starts_with p' s'
  | _ :: _, [] => false
  end.

(** What follows an ampersand makes it one of the three entities. *)
Definition entity_tail (s : js_string) : bool :=
  starts_with (str "amp;") s || starts_with (str "lt;") s
  || starts_with (str "gt;") s.

(** Every ampersand of [s] begins one of the three entities. *)
Fixpoint amps_escaped (s : js_string) : bool :=
  match s with
  | [] => true
  | c :: s' =>
      (if (c =? AMP)%N then entity_tail s' else true) && amps_escaped s'
  end.

(** A text without any of the three reserved characters. *)
Definition reserved_free (s : js_string) : Prop :=
  occ AMP s = 0 /\ occ LT s = 0 /\ occ GT s = 0.

(** The reserved characters of a document with [k] body lines are those
    of the template and no others: nine [<] and nine [>] of the frame,
    two of each per body line, and ampersands only in entities. *)
Definition only_template_markup (doc : js_string) (k : nat) : Prop :=
  occ LT doc = 9 + 2 * k /\ occ GT doc = 9 + 2 * k /\ amps_escaped doc = true.

(** The first code unit of [s] is not white space. *)
Definition starts_black (s : js_string) : bool :=
  match s with
  | [] => false
  | c :: _ => negb (is_white_space c)
  end.

(** The content of a file, the empty string when it is missing. *)
Definition content_of (fs : fs_state) (file : js_string) : js_string :=
  match readFile fs file with Some c => c | None => [] end.

(** A log is empty or ends with a line break. *)
Definition terminated (content : js_string) : Prop :=
  content = [] \/ exists o, content = o ++ [LF].


(** The line that the second script appends to a log, without its
    line break: [[${dateStr}] ${value}]. *)
Definition log_line (d : js_string) (v : value) : js_string :=
  str "[" ++ d ++ str "] " ++ show v.

(** One character escaped. *)
Definition escape_unit (c : N) : js_string :=
  if (c =? AMP)%N then str "&amp;"
  else if (c =? LT)%N then str "&lt;"
  else if (c =? GT)%N then str "&gt;"
  else [c].

(** A news response with zero articles. *)
Definition zero_articles (data : option news_data) : Prop :=
  opt data articles = Some [].

(* ================================================================== *)
(** * Sample environments *)

(** A stream of one chunk whose [delta.content] is [s]. *)
Definition one_chunk (s : js_string) : list chunk :=
  [ {| choices := [ {| delta_of := Some {| content := Some s |} |} ] |} ].

(** A Gemini response with one candidate of one part with text [s]. *)
Definition one_candidate (s : js_string) : gemini_response :=
  {| candidates :=
       Some [ {| gcontent_of := Some {| parts := Some [ {| text := Some s |} ] |} |} ] |}.

Definition unreachable {A} : error + A := inl (Error (str "fetch failed")).

(** First variant: all keys set, Groq streams [groq_says], Gemini
    answers [gemini_says], both news backends answer with no article. *)
Definition sampleA (groq_says gemini_says : js_string) : VariantA.env :=
  {| VariantA.groq := true;
     VariantA.geminiAI := true;
     VariantA.NEWS_API_KEY := true;
     VariantA.NEWS_API_KEY_2 := true;
     VariantA.groq_create := fun _ => inr (one_chunk groq_says);
     VariantA.gemini_generateContent := fun _ => inr (one_candidate gemini_says);
     VariantA.newsapi_fetch := fun _ => inr (Some {| articles := Some [] |});
     VariantA.gnews_fetch := fun _ => inr (Some {| articles := Some [] |}) |}.

(** Second variant: Gemini answers [gemini_says], Groq is unreachable. *)
Definition sampleB (gemini_says : js_string) (r : Q) : VariantB.env :=
  {| VariantB.geminiAI := true;
     VariantB.GROQ_API_KEY := true;
     VariantB.gemini_generateContent := fun _ => inr (one_candidate gemini_says);
     VariantB.groq_fetch := fun _ => unreachable;
     VariantB.Math_random := r |}.

(** Second variant with no key at all: both providers fail. *)
Definition offlineB (r : Q) : VariantB.env :=
  {| VariantB.geminiAI := false;
     VariantB.GROQ_API_KEY := false;
     VariantB.gemini_generateContent := fun _ => unreachable;
     VariantB.groq_fetch := fun _ => unreachable;
     VariantB.Math_random := r |}.

(** First variant with all keys set: Groq streams [groq_says] and both
    news backends answer with one article of title [headline]. *)
Definition sampleA_news (groq_says headline : js_string) : VariantA.env :=
  {| VariantA.groq := true;
     VariantA.geminiAI := true;
     VariantA.NEWS_API_KEY := true;
     VariantA.NEWS_API_KEY_2 := true;
     VariantA.groq_create := fun _ => inr (one_chunk groq_says);
     VariantA.gemini_generateContent := fun _ => unreachable;
     VariantA.newsapi_fetch :=
       fun _ => inr (Some {| articles := Some [ {| title := Some headline |} ] |});
     VariantA.gnews_fetch :=
       fun _ => inr (Some {| articles := Some [ {| title := Some headline |} ] |}) |}.

(** First variant with the news keys only. *)
Definition sampleA_news_only : VariantA.env :=
  {| VariantA.groq := false;
     VariantA.geminiAI := false;
     VariantA.NEWS_API_KEY := true;
     VariantA.NEWS_API_KEY_2 := true;
     VariantA.groq_create := fun _ => unreachable;
     VariantA.gemini_generateContent := fun _ => unreachable;
     VariantA.newsapi_fetch := fun _ => inr (Some {| articles := Some [] |});
     VariantA.gnews_fetch := fun _ => inr (Some {| articles := Some [] |}) |}.

(** Second variant with the Groq key only, Groq unreachable: both
    providers fail and the local list is used. *)
Definition offlineB_groq_key (r : Q) : VariantB.env :=
  {| VariantB.geminiAI := false;
     VariantB.GROQ_API_KEY := true;
     VariantB.gemini_generateContent := fun _ => unreachable;
     VariantB.groq_fetch := fun _ => unreachable;
     VariantB.Math_random := r |}.

(** Sunday 1970-01-04. *)
Definition sample_clockA : ScriptA.clock :=
  {| ScriptA.today := (3 * msPerDay)%Z;
     ScriptA.dateStr := str "1970-01-04";
     ScriptA.getDate := 4 |}.

Definition sample_clockB : ScriptB.clock :=
  {| ScriptB.dateStr := str "1970-01-04";
     ScriptB.yesterdayStr := str "1970-01-03" |}.

(** A working directory without files and a console without output. *)
Definition fresh_world : world := {| files := []; console := [] |}.

(* ================================================================== *)
(** * Strings: trimming, splitting and joining *)

Lemma trimStart_length (s : js_string) : length (trimStart s) <= length s.
Proof.
  induction s as [|c s IH]; simpl; [lia|].
  destruct (is_white_space c); simpl; lia.
Qed.

Lemma trimEnd_length (s : js_string) : length (trimEnd s) <= length s.
Proof.
  induction s as [|c s IH]; simpl; [lia|].
  destruct (trimEnd s); [destruct (is_white_space c)|]; simpl in *; lia.
Qed.

Lemma trim_length (s : js_string) : length (trim s) <= length (trimEnd s).
Proof. apply trimStart_length. Qed.

Lemma trimEnd_app (a b : js_string) :
  trimEnd (a ++ b) =
  match trimEnd b with [] => trimEnd a | _ :: _ => a ++ trimEnd b end.
Proof.
  induction a as [|c a IH]; simpl.
  - destruct (trimEnd b); reflexivity.
  - rewrite IH. destruct (trimEnd b) as [|x t]; [reflexivity|].
    destruct a; reflexivity.
Qed.

Lemma trimEnd_snoc_space (a : js_string) : trimEnd (a ++ [SP]) = trimEnd a.
Proof. rewrite trimEnd_app. reflexivity. Qed.

Lemma trimEnd_prefix (s : js_string) : exists t, s = trimEnd s ++ t.
Proof.
  induction s as [|c s [t IH]]; simpl; [now exists []|].
  destruct (trimEnd s) as [|x u] eqn:Hs.
  - destruct (is_white_space c).
    + now exists (c :: s).
    + exists s. reflexivity.
  - exists t. simpl in *. now rewrite <- IH.
Qed.

Lemma trimStart_suffix (s : js_string) : exists t, s = t ++ trimStart s.
Proof.
  induction s as [|c s [t IH]]; simpl; [now exists []|].
  destruct (is_white_space c).
  - exists (c :: t). simpl. now rewrite <- IH.
  - now exists [].
Qed.

Lemma trimEnd_fixed (s : js_string) :
  length (trimEnd s) = length s -> trimEnd s = s.
Proof.
  intros H. destruct (trimEnd_prefix s) as [t Ht].
  assert (length t = 0) as Hl.
  { apply (f_equal (@length N)) in Ht. rewrite length_app in Ht. lia. }
  destruct t; [|discriminate]. now rewrite app_nil_r in Ht.
Qed.

Lemma trimStart_fixed (s : js_string) :
  length (trimStart s) = length s -> trimStart s = s.
Proof.
  intros H. destruct (trimStart_suffix s) as [t Ht].
  assert (length t = 0) as Hl.
  { apply (f_equal (@length N)) in Ht. rewrite length_app in Ht. lia. }
  destruct t; [|discriminate]. now simpl in Ht.
Qed.

Lemma trim_fixed (s : js_string) :
  trim s = s -> trimStart s = s /\ trimEnd s = s.
Proof.
  unfold trim. intros H.
  pose proof (trimStart_length (trimEnd s)) as H1.
  pose proof (trimEnd_length s) as H2.
  assert (trimEnd s = s) as He.
  { apply trimEnd_fixed. rewrite H in H1. lia. }
  rewrite He in H. now split.
Qed.

Lemma trimStart_trimEnd (s : js_string) :
  trimStart (trimEnd s) = trimEnd (trimStart s).
Proof.
  induction s as [|c s IH]; [reflexivity|].
  simpl. destruct (is_white_space c) eqn:Hc.
  - destruct (trimEnd s) as [|x t] eqn:Hs.
    + simpl in IH. now rewrite <- IH.
    + simpl. rewrite Hc. exact IH.
  - destruct (trimEnd s) as [|x t] eqn:Hs; simpl; rewrite Hc, ?Hs; reflexivity.
Qed.

Lemma trimStart_head (s : js_string) :
  trimStart s = s ->
  s = [] \/ exists c s', s = c :: s' /\ is_white_space c = false.
Proof.
  destruct s as [|c s]; [now left|]. simpl.
  destruct (is_white_space c) eqn:Hc; intros H.
  - pose proof (trimStart_length s) as Hl. rewrite H in Hl. simpl in Hl. lia.
  - right. now exists c, s.
Qed.

Lemma trimStart_idem (s : js_string) : trimStart (trimStart s) = trimStart s.
Proof.
  induction s as [|c s IH]; [reflexivity|]. simpl.
  destruct (is_white_space c) eqn:Hc; [exact IH|]. simpl. now rewrite Hc.
Qed.

Lemma trimEnd_idem (s : js_string) : trimEnd (trimEnd s) = trimEnd s.
Proof.
  induction s as [|c s IH]; [reflexivity|]. simpl.
  destruct (trimEnd s) as [|x t] eqn:Hs.
  - destruct (is_white_space c) eqn:Hc; [reflexivity|]. simpl. now rewrite Hc.
  - change (trimEnd (c :: x :: t))
      with (match trimEnd (x :: t) with
            | [] => if is_white_space c then [] else [c]
            | y :: u => c :: y :: u
            end).
    now rewrite IH.
Qed.

(** A trimmed string has nothing left to trim. *)
Lemma trim_idem (s : js_string) : trim (trim s) = trim s.
Proof.
  unfold trim. rewrite <- (trimStart_trimEnd (trimEnd s)).
  now rewrite trimEnd_idem, trimStart_idem.
Qed.

Lemma split_space_nonnil (s : js_string) : split_space s <> [].
Proof.
  induction s as [|c s IH]; simpl; [discriminate|].
  destruct (c =? SP)%N; [discriminate|].
  destruct (split_space s); discriminate.
Qed.

Lemma split_space_app (a b : js_string) :
  split_space (a ++ SP :: b) = split_space a ++ split_space b.
Proof.
  induction a as [|c a IH]; simpl; [reflexivity|].
  destruct (c =? SP)%N; rewrite IH; [reflexivity|].
  pose proof (split_space_nonnil a) as Ha.
  destruct (split_space a); [contradiction|reflexivity].
Qed.

Lemma split_space_word (w : js_string) : space_free w -> split_space w = [w].
Proof.
  unfold space_free. induction w as [|c w IH]; simpl; intros H; [reflexivity|].
  destruct (N.eqb_spec c SP) as [->|Hc]; [tauto|].
  rewrite IH by tauto. reflexivity.
Qed.

Lemma split_space_free (s : js_string) : Forall space_free (split_space s).
Proof.
  unfold space_free. induction s as [|c s IH]; simpl.
  - constructor; [tauto|constructor].
  - destruct (N.eqb_spec c SP) as [->|Hc].
    + constructor; [simpl; tauto|exact IH].
    + destruct (split_space s) as [|w ws].
      * constructor; [|constructor]. simpl. intros [E|[]]. congruence.
      * inversion IH; subst. constructor; [|assumption].
        simpl. intros [E|E]; [congruence|tauto].
Qed.

Lemma join_cons (sep x : js_string) (xs : list js_string) :
  xs <> [] -> join sep (x :: xs) = x ++ sep ++ join sep xs.
Proof. destruct xs; [contradiction|reflexivity]. Qed.

Lemma join_app (sep : js_string) (xs ys : list js_string) :
  xs <> [] -> ys <> [] ->
  join sep (xs ++ ys) = join sep xs ++ sep ++ join sep ys.
Proof.
  induction xs as [|x xs IH]; intros Hx Hy; [contradiction|].
  destruct xs as [|x' xs].
  - simpl app. now rewrite join_cons.
  - change ((x :: x' :: xs) ++ ys) with (x :: (x' :: xs) ++ ys).
    rewrite join_cons by (simpl; discriminate).
    rewrite IH by (discriminate || assumption).
    rewrite (join_cons sep x (x' :: xs)) by discriminate.
    now rewrite <- !app_assoc.
Qed.

(** Splitting at the spaces loses nothing: joining the pieces with one
    space gives the text back. *)
Lemma join_split_space (s : js_string) : join [SP] (split_space s) = s.
Proof.
  induction s as [|c s IH]; [reflexivity|]. simpl split_space.
  pose proof (split_space_nonnil s) as Hs.
  destruct (N.eqb_spec c SP) as [->|Hc].
  - rewrite join_cons by assumption. simpl. now rewrite IH.
  - destruct (split_space s) as [|w ws]; [contradiction|].
    destruct ws as [|w' ws]; simpl in *; now rewrite IH.
Qed.

Lemma join_concat (sep : js_string) (gs : list (list js_string)) :
  Forall (fun g => g <> []) gs ->
  join sep (map (join sep) gs) = join sep (concat gs).
Proof.
  induction gs as [|g gs IH]; intros H; [reflexivity|].
  inversion H as [|? ? Hg Hgs]; subst. destruct gs as [|g' gs].
  - simpl. now rewrite app_nil_r.
  - change (map (join sep) (g :: g' :: gs))
      with (join sep g :: map (join sep) (g' :: gs)).
    rewrite join_cons by discriminate. rewrite IH by assumption.
    change (concat (g :: g' :: gs)) with (g ++ concat (g' :: gs)).
    rewrite join_app; [reflexivity|assumption|].
    inversion Hgs; subst. simpl. destruct g'; [contradiction|discriminate].
Qed.

Lemma words_of_app (a b : js_string) :
  words_of (a ++ SP :: b) = words_of a ++ words_of b.
Proof. unfold words_of. now rewrite split_space_app, filter_app. Qed.

Lemma words_of_word (w : js_string) :
  space_free w -> words_of w = filter truthy [w].
Proof. intros H. unfold words_of. now rewrite split_space_word. Qed.

Lemma words_of_join (ls : list js_string) :
  words_of (join [SP] ls) = concat (map words_of ls).
Proof.
  induction ls as [|x ls IH]; [reflexivity|]. destruct ls as [|y ls].
  - simpl. now rewrite app_nil_r.
  - rewrite join_cons by discriminate.
    change ([SP] ++ join [SP] (y :: ls)) with (SP :: join [SP] (y :: ls)).
    rewrite words_of_app, IH. reflexivity.
Qed.

Lemma filter_all {A} (f : A -> bool) (xs : list A) :
  Forall (fun x => f x = true) xs -> filter f xs = xs.
Proof.
  induction 1 as [|x xs Hx _ IH]; simpl; [reflexivity|]. now rewrite Hx, IH.
Qed.

(* ================================================================== *)
(** * Lines of groups of words *)

Lemma unwords_app (g h : list js_string) :
  unwords (g ++ h) = unwords g ++ unwords h.
Proof. apply flat_map_app. Qed.

Lemma unwords_single (w : js_string) : unwords [w] = w ++ [SP].
Proof. unfold unwords. simpl. apply app_nil_r. Qed.

Lemma unwords_join (g : list js_string) :
  g <> [] -> unwords g = join [SP] g ++ [SP].
Proof.
  induction g as [|w g IH]; intros H; [contradiction|]. destruct g as [|w' g].
  - simpl. now rewrite app_nil_r.
  - change (unwords (w :: w' :: g)) with ((w ++ [SP]) ++ unwords (w' :: g)).
    rewrite IH by discriminate.
    rewrite (join_cons [SP] w (w' :: g)) by discriminate.
    now rewrite <- !app_assoc.
Qed.

Lemma skip_empty_filter (g : list js_string) :
  filter truthy (skip_empty g) = filter truthy g.
Proof.
  induction g as [|w g IH]; [reflexivity|]. simpl.
  destruct (truthy w) eqn:Hw; [simpl; now rewrite Hw|exact IH].
Qed.

Lemma skip_empty_Forall (P : js_string -> Prop) (g : list js_string) :
  Forall P g -> Forall P (skip_empty g).
Proof.
  induction 1 as [|w g Hw Hg IH]; simpl; [constructor|].
  destruct (truthy w); [now constructor|exact IH].
Qed.

Lemma trimStart_unwords (g : list js_string) :
  Forall (fun w => trimStart w = w) g ->
  trimStart (unwords g) = unwords (skip_empty g).
Proof.
  induction 1 as [|w g Hw Hg IH]; [reflexivity|].
  destruct (trimStart_head w Hw) as [->|(c & w' & -> & Hc)].
  - simpl. exact IH.
  - simpl. now rewrite Hc.
Qed.

Lemma words_of_trimEnd_unwords (g : list js_string) :
  Forall space_free g -> Forall (fun w => trimEnd w = w) g ->
  words_of (trimEnd (unwords g)) = filter truthy g.
Proof.
  induction g as [|w g IH]; intros Hs He; [reflexivity|].
  inversion Hs as [|? ? Hws Hgs]; inversion He as [|? ? Hwe Hge]; subst.
  change (unwords (w :: g)) with ((w ++ [SP]) ++ unwords g).
  rewrite trimEnd_app. specialize (IH Hgs Hge).
  destruct (trimEnd (unwords g)) as [|x t] eqn:Ht.
  - rewrite trimEnd_snoc_space, Hwe, words_of_word by assumption.
    change (filter truthy (w :: g)) with (filter truthy ([w] ++ g)).
    rewrite filter_app, <- IH. symmetry. apply app_nil_r.
  - rewrite <- app_assoc. simpl app. rewrite words_of_app, IH.
    rewrite words_of_word by assumption.
    change (filter truthy (w :: g)) with (filter truthy ([w] ++ g)).
    now rewrite filter_app.
Qed.

(** The words of a pushed line are the non-empty words of its group,
    when no word has white space at its ends. *)
Lemma words_of_line_of (g : list js_string) :
  Forall space_free g -> Forall (fun w => trim w = w) g ->
  words_of (line_of g) = filter truthy g.
Proof.
  intros Hs Ht. unfold line_of, trim. rewrite trimStart_trimEnd.
  assert (Forall (fun w => trimStart w = w) g) as H1
    by (eapply Forall_impl; [|exact Ht]; intros w Hw; now apply trim_fixed).
  assert (Forall (fun w => trimEnd w = w) g) as H2
    by (eapply Forall_impl; [|exact Ht]; intros w Hw; now apply trim_fixed).
  rewrite trimStart_unwords by assumption.
  rewrite words_of_trimEnd_unwords by now apply skip_empty_Forall.
  apply skip_empty_filter.
Qed.

Lemma join_nonempty (g : list js_string) :
  g <> [] -> Forall (fun w => truthy w = true) g -> truthy (join [SP] g) = true.
Proof.
  intros Hg H. destruct g as [|w g]; [contradiction|].
  inversion H; subst. destruct w; [discriminate|].
  destruct g; reflexivity.
Qed.

(** The pushed line of a non-empty group of non-empty words without
    white space at their ends is the group joined by single spaces. *)
Lemma line_of_join (g : list js_string) :
  g <> [] -> Forall (fun w => truthy w = true) g ->
  Forall (fun w => trim w = w) g ->
  line_of g = join [SP] g.
Proof.
  intros Hg Hn Ht. unfold line_of, trim.
  rewrite unwords_join, trimEnd_snoc_space by assumption.
  assert (trimEnd (join [SP] g) = join [SP] g) as He.
  { clear Hg. induction g as [|w g IH]; [reflexivity|].
    inversion Hn; inversion Ht; subst. destruct g as [|w' g].
    - simpl. now apply trim_fixed.
    - rewrite join_cons by discriminate. rewrite app_assoc, trimEnd_app.
      rewrite IH by assumption.
      pose proof (join_nonempty (w' :: g)) as Hj.
      destruct (join [SP] (w' :: g)); [|reflexivity].
      discriminate Hj; [discriminate|assumption]. }
  rewrite He. destruct g as [|w g]; [contradiction|].
  inversion Hn as [|? ? Hw _]; inversion Ht as [|? ? Hw' _]; subst.
  apply trim_fixed in Hw'. destruct Hw' as [Hw' _].
  destruct (trimStart_head w Hw') as [->|(c & w' & -> & Hc)]; [discriminate|].
  destruct g; simpl; now rewrite Hc.
Qed.

(* ================================================================== *)
(** * The loop of wrapText *)

(** The loop only ever pushes whole groups of consecutive words: from a
    line that holds the words [cur], the words [ws] end up in the pushed
    groups and in the group still under construction. *)
Lemma wrap_fold_groups (n : nat) (ws : list js_string) :
  forall lines cur, exists groups last,
    fold_left (wrap_step n) ws (lines, unwords cur)
    = (lines ++ map line_of groups, unwords last)
    /\ concat groups ++ last = cur ++ ws
    /\ (cur <> [] -> Forall (fun g => g <> []) groups /\ last <> []).
Proof.
  induction ws as [|w ws IH]; intros lines cur.
  - exists [], cur. simpl. rewrite !app_nil_r. repeat split; auto.
  - simpl fold_left.
    destruct (n <? length (unwords cur ++ w)); cbv iota.
    + destruct (IH (lines ++ [trim (unwords cur)]) [w])
        as (groups & last & Hf & Hc & Hn).
      exists (cur :: groups), last. split; [|split].
      * rewrite unwords_single in Hf. rewrite Hf. simpl map.
        now rewrite <- app_assoc.
      * simpl concat. rewrite <- app_assoc, Hc. reflexivity.
      * intros Hcur. destruct Hn as [Hg Hl]; [discriminate|].
        split; [now constructor|assumption].
    + destruct (IH lines (cur ++ [w])) as (groups & last & Hf & Hc & Hn).
      exists groups, last. split; [|split].
      * rewrite unwords_app, unwords_single in Hf. exact Hf.
      * rewrite Hc, <- app_assoc. reflexivity.
      * intros _. apply Hn. now destruct cur.
Qed.

Lemma push_last (L : list js_string) (last : list js_string) :
  (if truthy (trim (unwords last)) then L ++ [trim (unwords last)] else L)
  = L ++ last_line last.
Proof.
  unfold last_line, line_of.
  destruct (truthy (trim (unwords last))); [reflexivity|].
  now rewrite app_nil_r.
Qed.

(** The lines of [wrapText] are the lines of consecutive groups of the
    words of the text; when the first word fits, no group is empty. *)
Lemma wrapText_groups (text : js_string) (n : nat) :
  exists groups last,
    wrapText text n = map line_of groups ++ last_line last
    /\ concat groups ++ last = split_space text
    /\ (length (hd [] (split_space text)) <= n ->
        Forall (fun g => g <> []) groups /\ last <> []).
Proof.
  unfold wrapText. pose proof (split_space_nonnil text) as Hne.
  destruct (split_space text) as [|w ws]; [contradiction|]. clear Hne.
  simpl fold_left. simpl hd. destruct (Nat.ltb_spec n (length w)) as [Hlt|Hle].
  - destruct (wrap_fold_groups n ws [trim []] [w])
      as (groups & last & Hf & Hc & _).
    exists ([] :: groups), last. rewrite unwords_single in Hf.
    simpl app at 1. rewrite Hf, push_last.
    split; [reflexivity|]. split; [exact Hc|]. intros H. lia.
  - destruct (wrap_fold_groups n ws [] [w]) as (groups & last & Hf & Hc & Hn).
    exists groups, last. rewrite unwords_single in Hf.
    simpl app at 1. rewrite Hf, push_last.
    split; [reflexivity|]. split; [exact Hc|]. intros _. now apply Hn.
Qed.

(** While every word fits, so does every pushed line and the line under
    construction without its trailing space. *)
Lemma wrap_fold_width (n : nat) (ws : list js_string) :
  Forall (fun w => length w <= n) ws ->
  forall lines line,
    Forall (fun l => length l <= n) lines -> length (trimEnd line) <= n ->
    Forall (fun l => length l <= n)
      (fst (fold_left (wrap_step n) ws (lines, line)))
    /\ length (trimEnd (snd (fold_left (wrap_step n) ws (lines, line)))) <= n.
Proof.
  induction 1 as [|w ws Hw Hws IH]; intros lines line Hl Hline.
  - now split.
  - simpl fold_left.
    destruct (Nat.ltb_spec n (length (line ++ w))) as [Hlt|Hle]; apply IH.
    + apply Forall_app. split; [assumption|]. constructor; [|constructor].
      pose proof (trim_length line). lia.
    + rewrite trimEnd_snoc_space. pose proof (trimEnd_length w). lia.
    + assumption.
    + rewrite app_assoc, trimEnd_snoc_space.
      pose proof (trimEnd_length (line ++ w)). lia.
Qed.

(* ================================================================== *)
(** * TextWrapper *)

(** C9. [wrapText] applied to the empty string returns no line at all,
    whatever the width. *)
Theorem wrapText_empty (maxChars : nat) : wrapText [] maxChars = [].
Proof. reflexivity. Qed.

(** C10. A text whose first word is longer than the width gets an empty
    string as its first line; a text that is one such word, without
    white space at its ends, gives exactly the empty line and the word. *)
Theorem wrapText_long_first_word (text : js_string) (maxChars : nat)
  (Hlong : maxChars < length (hd [] (split_space text))) :
  (exists rest, wrapText text maxChars = [] :: rest)
  /\ (space_free text -> trim text = text ->
      wrapText text maxChars = [[]; text]).
Proof.
  split.
  - unfold wrapText. pose proof (split_space_nonnil text) as Hne.
    destruct (split_space text) as [|w ws]; [contradiction|].
    simpl in Hlong. simpl fold_left.
    apply Nat.ltb_lt in Hlong. rewrite Hlong.
    destruct (wrap_fold_groups maxChars ws [trim []] [w])
      as (groups & last & Hf & _).
    rewrite unwords_single in Hf. rewrite Hf, push_last.
    eexists. reflexivity.
  - intros Hfree Htrim. unfold wrapText.
    rewrite split_space_word in * by assumption.
    simpl in Hlong. simpl fold_left.
    apply Nat.ltb_lt in Hlong. rewrite Hlong.
    assert (trim (text ++ [SP]) = text) as Ht
      by (unfold trim in *; now rewrite trimEnd_snoc_space).
    rewrite Ht. apply Nat.ltb_lt in Hlong.
    destruct text; [simpl in Hlong; lia|reflexivity].
Qed.

Lemma wrapText_long_first_word_witness :
  wrapText (str "abcdef") 3 = [[]; str "abcdef"].
Proof.
  destruct (wrapText_long_first_word (str "abcdef") 3) as [_ Hword].
  - simpl. lia.
  - apply Hword; [|reflexivity].
    intros Hin. simpl in Hin. unfold SP in Hin. intuition discriminate.
Defined.

(** C7. When no word of the text is longer than the width, no returned
    line is longer than the width, a returned line being a trimmed
    string, without any trailing space; and no word is split: the
    returned lines are the lines of non-empty groups of consecutive
    whole words of the text, in order (the last group's line is left out
    when it is blank). *)
Theorem wrapText_fits_width (text : js_string) (maxChars : nat)
  (Hwords : Forall (fun w => length w <= maxChars) (split_space text)) :
  Forall (fun l => length l <= maxChars /\ trim l = l)
    (wrapText text maxChars)
  /\ exists groups last,
       concat groups ++ last = split_space text
       /\ Forall (fun g => g <> []) groups /\ last <> []
       /\ wrapText text maxChars = map line_of groups ++ last_line last.
Proof.
  destruct (wrapText_groups text maxChars) as (groups & last & Hw & Hc & Hn).
  split.
  - apply Forall_and.
    + unfold wrapText.
      destruct (wrap_fold_width maxChars (split_space text) Hwords [] [])
        as [Hl Hline]; [constructor|simpl; lia|].
      destruct (fold_left (wrap_step maxChars) (split_space text) ([], []))
        as [lines line]. simpl in Hl, Hline.
      destruct (truthy (trim line)); [|assumption].
      apply Forall_app. split; [assumption|]. constructor; [|constructor].
      pose proof (trim_length line). lia.
    + rewrite Hw. apply Forall_app. split.
      * apply Forall_map, Forall_forall. intros g _. apply trim_idem.
      * unfold last_line. destruct (truthy (line_of last)); constructor;
          [apply trim_idem|constructor].
  - exists groups, last. destruct Hn as [Hg Hl].
    + pose proof (split_space_nonnil text) as Hne.
      destruct (split_space text); [contradiction|]. now inversion Hwords.
    + repeat split; assumption.
Qed.

Lemma wrapText_fits_width_witness :
  Forall (fun l => length l <= 5 /\ trim l = l) (wrapText (str "aa bb cc") 5).
Proof.
  apply (wrapText_fits_width (str "aa bb cc") 5).
  simpl. repeat constructor.
Defined.

(** C1, as the specification states it, fails on a text with two
    consecutive spaces: the spaces stay inside the line. *)
Lemma wrapText_keeps_double_space :
  join [SP] (wrapText (str "a  b") default_maxChars)
  <> normalize_spaces (str "a  b").
Proof. vm_compute. discriminate. Qed.

(** C1, amended. When no word of the text begins or ends with white
    space, the rejoined lines and the text have the same normal form,
    that is the same non-empty words in the same order; and when
    moreover the text has no empty word (no leading, trailing or
    repeated space) and its first word fits the width, the rejoined
    lines are the normalized text, which is the text itself. *)
Theorem wrapText_rejoin (text : js_string) (maxChars : nat)
  (Hedges : Forall (fun w => trim w = w) (split_space text)) :
  normalize_spaces (join [SP] (wrapText text maxChars))
  = normalize_spaces text
  /\ (Forall (fun w => truthy w = true) (split_space text) ->
      length (hd [] (split_space text)) <= maxChars ->
      join [SP] (wrapText text maxChars) = normalize_spaces text
      /\ normalize_spaces text = text).
Proof.
  destruct (wrapText_groups text maxChars) as (groups & last & Hw & Hc & Hn).
  pose proof (split_space_free text) as Hfree.
  rewrite <- Hc in Hedges, Hfree.
  apply Forall_app in Hedges, Hfree.
  destruct Hedges as [Heg Hel], Hfree as [Hfg Hfl].
  rewrite Forall_concat in Heg, Hfg.
  split.
  - unfold normalize_spaces. f_equal. rewrite words_of_join, Hw.
    rewrite map_app, concat_app, map_map.
    change (words_of text) with (filter truthy (split_space text)).
    rewrite <- Hc, filter_app.
    f_equal.
    + clear Hw Hc Hn. induction groups as [|g groups IH]; [reflexivity|].
      inversion Heg; inversion Hfg; subst. simpl.
      rewrite filter_app, words_of_line_of, IH by assumption. reflexivity.
    + unfold last_line. pose proof (words_of_line_of last Hfl Hel) as Hl.
      destruct (line_of last); simpl; [|rewrite app_nil_r]; exact Hl.
  - intros Hfull Hfirst. destruct (Hn Hfirst) as [Hg Hl].
    assert (normalize_spaces text = text) as Hnorm.
    { unfold normalize_spaces, words_of. rewrite filter_all by assumption.
      apply join_split_space. }
    split; [|exact Hnorm]. rewrite Hnorm.
    rewrite <- Hc in Hfull. apply Forall_app in Hfull.
    destruct Hfull as [Hng Hnl]. rewrite Forall_concat in Hng.
    assert (last_line last = [join [SP] last]) as Hlast.
    { unfold last_line. rewrite line_of_join by assumption.
      now rewrite join_nonempty. }
    assert (map line_of groups = map (join [SP]) groups) as Hmap.
    { apply map_ext_in. intros g Hin. rewrite Forall_forall in *.
      apply line_of_join; auto. }
    rewrite Hw, Hlast, Hmap.
    change (map (join [SP]) groups ++ [join [SP] last])
      with (map (join [SP]) groups ++ map (join [SP]) [last]).
    rewrite <- map_app, join_concat.
    + rewrite concat_app. simpl. rewrite app_nil_r, Hc.
      apply join_split_space.
    + apply Forall_app. split; [assumption|]. now constructor.
Qed.

Lemma wrapText_rejoin_witness :
  normalize_spaces (join [SP] (wrapText (str "ab cd e") 5))
  = normalize_spaces (str "ab cd e")
  /\ join [SP] (wrapText (str "ab cd e") 5) = normalize_spaces (str "ab cd e").
Proof.
  destruct (wrapText_rejoin (str "ab cd e") 5) as [Hsame Hexact].
  - vm_compute. repeat constructor.
  - split; [exact Hsame|]. apply Hexact; vm_compute; repeat constructor.
Defined.

(* ================================================================== *)
(** * SvgRenderer *)

Lemma occ_app (c : N) (a b : js_string) : occ c (a ++ b) = occ c a + occ c b.
Proof. induction a as [|x a IH]; simpl; [reflexivity|]. rewrite IH. lia. Qed.

Lemma occ_trimStart (c : N) (s : js_string) :
  is_white_space c = false -> occ c (trimStart s) = occ c s.
Proof.
  intros Hc. induction s as [|x s IH]; [reflexivity|]. simpl.
  destruct (is_white_space x) eqn:Hx; [|reflexivity].
  destruct (N.eqb_spec x c) as [->|_]; [congruence|]. exact IH.
Qed.

Lemma occ_trimEnd (c : N) (s : js_string) :
  is_white_space c = false -> occ c (trimEnd s) = occ c s.
Proof.
  intros Hc. induction s as [|x s IH]; [reflexivity|]. simpl.
  destruct (trimEnd s) as [|y t].
  - rewrite <- IH. destruct (is_white_space x) eqn:Hx; [|reflexivity].
    destruct (N.eqb_spec x c) as [->|_]; [congruence|]. reflexivity.
  - rewrite <- IH. reflexivity.
Qed.

Lemma occ_trim (c : N) (s : js_string) :
  is_white_space c = false -> occ c (trim s) = occ c s.
Proof.
  intros Hc. unfold trim. now rewrite occ_trimStart, occ_trimEnd.
Qed.

(** The three replacements of [escapeSvg] do not interfere: the result
    is the text with each code unit escaped on its own. *)
Lemma escapeSvg_units (s : js_string) : escapeSvg s = flat_map escape_unit s.
Proof.
  unfold escapeSvg, replace_all. induction s as [|c s IH]; [reflexivity|].
  simpl flat_map. rewrite !flat_map_app, IH. f_equal.
  unfold escape_unit.
  destruct (N.eqb_spec c AMP) as [->|Ha]; [reflexivity|].
  destruct (N.eqb_spec c LT) as [->|Hl]; [reflexivity|].
  destruct (N.eqb_spec c GT) as [->|Hg]; [reflexivity|].
  apply N.eqb_neq in Hl, Hg. simpl. rewrite Hl. simpl. now rewrite Hg.
Qed.

Lemma occ_escape_unit (c : N) :
  occ LT (escape_unit c) = 0 /\ occ GT (escape_unit c) = 0.
Proof.
  unfold escape_unit.
  destruct (N.eqb_spec c AMP); [now split|].
  destruct (N.eqb_spec c LT) as [|Hl]; [now split|].
  destruct (N.eqb_spec c GT) as [|Hg]; [now split|].
  simpl. apply N.eqb_neq in Hl, Hg. now rewrite Hl, Hg.
Qed.

(** An escaped text has no raw [<] and no raw [>]. *)
Lemma occ_escapeSvg (s : js_string) :
  occ LT (escapeSvg s) = 0 /\ occ GT (escapeSvg s) = 0.
Proof.
  rewrite escapeSvg_units. induction s as [|c s [IH1 IH2]]; [now split|].
  simpl. rewrite !occ_app, IH1, IH2.
  destruct (occ_escape_unit c) as [-> ->]. now split.
Qed.

Lemma starts_with_app (p s t : js_string) :
  starts_with p s = true -> starts_with p (s ++ t) = true.
Proof.
  revert s. induction p as [|a p IH]; intros [|b s]; simpl; try easy.
  intros H. apply andb_true_iff in H. destruct H as [-> H]. now apply IH.
Qed.

Lemma entity_tail_app (s t : js_string) :
  entity_tail s = true -> entity_tail (s ++ t) = true.
Proof.
  unfold entity_tail. intros H.
  apply orb_true_iff in H. destruct H as [H|H];
    [apply orb_true_iff in H; destruct H as [H|H]|];
    rewrite (starts_with_app _ _ _ H), ?orb_true_r; reflexivity.
Qed.

Lemma amps_escaped_app (a b : js_string) :
  amps_escaped a = true -> amps_escaped b = true ->
  amps_escaped (a ++ b) = true.
Proof.
  intros Ha Hb. induction a as [|c a IH]; [exact Hb|].
  cbn [amps_escaped app] in *. apply andb_true_iff in Ha.
  destruct Ha as [Hc Ha]. rewrite (IH Ha), andb_true_r.
  destruct (c =? AMP)%N; [|reflexivity]. now apply entity_tail_app.
Qed.

Lemma amps_escaped_none (s : js_string) :
  occ AMP s = 0 -> amps_escaped s = true.
Proof.
  induction s as [|c s IH]; [reflexivity|]. cbn [amps_escaped occ].
  destruct (c =? AMP)%N; [discriminate|]. exact IH.
Qed.

(** In an escaped text every ampersand begins an entity. *)
Lemma amps_escaped_escapeSvg (s : js_string) :
  amps_escaped (escapeSvg s) = true.
Proof.
  rewrite escapeSvg_units. induction s as [|c s IH]; [reflexivity|].
  simpl. apply amps_escaped_app; [|exact IH]. unfold escape_unit.
  destruct (N.eqb_spec c AMP); [reflexivity|].
  destruct (N.eqb_spec c LT); [reflexivity|].
  destruct (N.eqb_spec c GT); [reflexivity|].
  apply amps_escaped_none. simpl.
  destruct (N.eqb_spec c AMP); [contradiction|reflexivity].
Qed.

Lemma amps_escaped_tail (c : N) (s : js_string) :
  amps_escaped (c :: s) = true -> amps_escaped s = true.
Proof. cbn [amps_escaped]. intros H. apply andb_true_iff in H. tauto. Qed.

Lemma amps_escaped_trimStart (s : js_string) :
  amps_escaped s = true -> amps_escaped (trimStart s) = true.
Proof.
  induction s as [|c s IH]; [easy|]. intros H. simpl trimStart.
  destruct (is_white_space c); [|exact H].
  apply IH. now apply amps_escaped_tail in H.
Qed.

Lemma starts_with_trimEnd (p s : js_string) :
  starts_with p s = true ->
  forallb (fun c => negb (is_white_space c)) p = true ->
  starts_with p (trimEnd s) = true.
Proof.
  revert s. induction p as [|a p IH]; [reflexivity|].
  intros [|b s] H Hp; [discriminate|]. cbn [forallb starts_with] in Hp, H.
  apply andb_true_iff in Hp, H. destruct Hp as [Ha Hp], H as [Hab H].
  apply N.eqb_eq in Hab. subst b. specialize (IH s H Hp).
  apply negb_true_iff in Ha. cbn [trimEnd].
  destruct (trimEnd s) as [|x t]; [rewrite Ha|]; cbn [starts_with];
    rewrite N.eqb_refl; [|exact IH].
  destruct p; [reflexivity|discriminate].
Qed.

Lemma entity_tail_trimEnd (s : js_string) :
  entity_tail s = true -> entity_tail (trimEnd s) = true.
Proof.
  unfold entity_tail. intros H.
  apply orb_true_iff in H. destruct H as [H|H];
    [apply orb_true_iff in H; destruct H as [H|H]|];
    rewrite (starts_with_trimEnd _ _ H eq_refl), ?orb_true_r; reflexivity.
Qed.

Lemma amps_escaped_trimEnd (s : js_string) :
  amps_escaped s = true -> amps_escaped (trimEnd s) = true.
Proof.
  induction s as [|c s IH]; [easy|]. intros H.
  pose proof (amps_escaped_tail _ _ H) as Hs. specialize (IH Hs).
  cbn [amps_escaped] in H. rewrite Hs, andb_true_r in H. cbn [trimEnd].
  destruct (c =? AMP)%N eqn:Hc.
  - apply entity_tail_trimEnd in H.
    destruct (trimEnd s) as [|x t]; [discriminate|].
    cbn [amps_escaped]. rewrite Hc, H. exact IH.
  - destruct (trimEnd s) as [|x t].
    + destruct (is_white_space c); [reflexivity|].
      cbn [amps_escaped]. now rewrite Hc.
    + cbn [amps_escaped]. rewrite Hc. exact IH.
Qed.

Lemma amps_escaped_trim (s : js_string) :
  amps_escaped s = true -> amps_escaped (trim s) = true.
Proof.
  intros H. unfold trim. now apply amps_escaped_trimStart, amps_escaped_trimEnd.
Qed.

(** Decimal digits are not reserved characters. *)
Lemma occ_show_nat (c : N) (n : nat) :
  ((c <? 48) || (57 <? c))%N = true -> occ c (show_nat n) = 0.
Proof.
  intros Hc. unfold show_nat.
  assert (forall k, (48 <= k <= 57)%N -> (k =? c)%N = false) as Hk.
  { intros k Hk. apply N.eqb_neq. intros ->.
    apply orb_true_iff in Hc. destruct Hc as [H|H]; apply N.ltb_lt in H; lia. }
  induction (Nat.to_uint n) as [|d IH|d IH|d IH|d IH|d IH|d IH|d IH|d IH|d IH
                                |d IH]; cbn [uint_units occ];
    [reflexivity|..]; rewrite Hk by lia; exact IH.
Qed.

Lemma amps_escaped_show_nat (n : nat) : amps_escaped (show_nat n) = true.
Proof. apply amps_escaped_none, occ_show_nat. reflexivity. Qed.

Lemma amps_escaped_reserved_free (s : js_string) :
  reserved_free s -> amps_escaped s = true.
Proof. intros [H _]. now apply amps_escaped_none. Qed.

(** A chain of concatenations has its ampersands escaped when every
    piece has. *)
Ltac amps_piece :=
  first [ assumption
        | apply amps_escaped_show_nat
        | apply amps_escaped_escapeSvg
        | apply amps_escaped_reserved_free; assumption
        | reflexivity ].

Ltac amps_chain :=
  first [ amps_piece | apply amps_escaped_app; [amps_piece | amps_chain] ].

(** The markup of one body line: the opening and the closing tag, and
    nothing raw from the line itself. *)
Lemma textLine_markup (l : js_string) (i : nat) :
  occ LT (textLine l i) = 2 /\ occ GT (textLine l i) = 2
  /\ amps_escaped (textLine l i) = true.
Proof.
  destruct (occ_escapeSvg l) as [Hl Hg]. unfold textLine.
  repeat split.
  - rewrite !occ_app, Hl, occ_show_nat by reflexivity. reflexivity.
  - rewrite !occ_app, Hg, occ_show_nat by reflexivity. reflexivity.
  - amps_chain.
Qed.

Lemma textLines_markup (lines : list js_string) :
  forall i,
    occ LT (join [LF] (mapi_from textLine i lines)) = 2 * length lines
    /\ occ GT (join [LF] (mapi_from textLine i lines)) = 2 * length lines
    /\ amps_escaped (join [LF] (mapi_from textLine i lines)) = true.
Proof.
  induction lines as [|l lines IH]; intros i; [now repeat split|].
  destruct (textLine_markup l i) as (Hl & Hg & Ha).
  destruct lines as [|l' lines].
  - cbn [mapi_from join length]. rewrite Hl, Hg, Ha. now repeat split.
  - destruct (IH (S i)) as (Hl' & Hg' & Ha').
    change (mapi_from textLine i (l :: l' :: lines))
      with (textLine l i :: mapi_from textLine (S i) (l' :: lines)).
    rewrite join_cons by discriminate. rewrite !occ_app, Hl, Hg, Hl', Hg'.
    repeat split; [simpl length; simpl occ; lia..|].
    amps_chain.
Qed.

(** C2, as the specification states it, fails: the title is embedded as
    it is, so a reserved character of the title reaches the document. *)
Lemma writeSvg_title_not_escaped :
  ~ only_template_markup
      (fw_data (VariantA.writeSvg (str "news.svg") (str "a<b") (str "")
                  (str "#58a6ff") (str "2026-01-01")))
      (length (wrapText (str "") default_maxChars)).
Proof. intros [H _]. vm_compute in H. discriminate. Qed.

(** C2, amended. Only the body text is escaped by [writeSvg]: for every
    content string, and for a title, an accent and a date stamp without
    reserved characters (as the literals and the ISO date passed at the
    call sites are), the document of either variant has no [<] or [>]
    besides those of the template (nine of each for the frame, two of
    each per body line) and every [&] of it begins one of the entities
    [&amp;], [&lt;], [&gt;]. *)
Theorem writeSvg_body_escaped
  (filename title content accent dateStr : js_string)
  (Htitle : reserved_free title) (Haccent : reserved_free accent)
  (Hdate : reserved_free dateStr) :
  only_template_markup
    (fw_data (VariantA.writeSvg filename title content accent dateStr))
    (length (wrapText content default_maxChars))
  /\ only_template_markup
       (fw_data (VariantB.writeSvg filename title content accent dateStr))
       (length (wrapText content default_maxChars)).
Proof.
  assert (forall base,
    only_template_markup (svgDocument base title content accent dateStr)
      (length (wrapText content default_maxChars))) as Hdoc.
  { intros base. unfold only_template_markup, svgDocument.
    destruct (textLines_markup (wrapText content default_maxChars) 0)
      as (Hl & Hg & Ha).
    destruct Htitle as (Ht1 & Ht2 & Ht3), Haccent as (Ha1 & Ha2 & Ha3),
      Hdate as (Hd1 & Hd2 & Hd3).
    pose proof (amps_escaped_none _ Ht1) as Ht.
    pose proof (amps_escaped_none _ Ha1) as Hacc.
    pose proof (amps_escaped_none _ Hd1) as Hd.
    repeat split.
    - rewrite occ_trim by reflexivity.
      rewrite !occ_app, Hl, Ht2, Ha2, Hd2, occ_show_nat by reflexivity.
      simpl occ. lia.
    - rewrite occ_trim by reflexivity.
      rewrite !occ_app, Hg, Ht3, Ha3, Hd3, occ_show_nat by reflexivity.
      simpl occ. lia.
    - apply amps_escaped_trim. amps_chain. }
  split; apply Hdoc.
Qed.

Lemma writeSvg_body_escaped_witness :
  only_template_markup
    (fw_data (VariantA.writeSvg (str "joke.svg") (str "Daily Joke")
                (str "Tom & Jerry <3 > all") (str "#3fb950")
                (str "2026-01-01")))
    (length (wrapText (str "Tom & Jerry <3 > all") default_maxChars)).
Proof.
  apply (writeSvg_body_escaped (str "joke.svg") (str "Daily Joke")
           (str "Tom & Jerry <3 > all") (str "#3fb950") (str "2026-01-01"));
    vm_compute; repeat split.
Defined.

(* ================================================================== *)
(** * Category rotation *)

Lemma getDay_lt (today : Date) : getDay today < 7.
Proof.
  unfold getDay.
  pose proof (Z.mod_pos_bound (today / msPerDay + 4) 7 ltac:(lia)). lia.
Qed.

Lemma getDay_addDays (today : Date) (k : nat) :
  getDay (addDays today k) = (getDay today + k) mod 7.
Proof.
  unfold getDay, addDays. rewrite Z.div_add by discriminate.
  pose proof (Z.mod_pos_bound (today / msPerDay + 4) 7 ltac:(lia)) as Hb.
  apply Nat2Z.inj. rewrite Nat2Z.inj_mod, Nat2Z.inj_add.
  rewrite !Z2Nat.id by (try apply Z.mod_pos_bound; lia).
  change (Z.of_nat 7) with 7%Z. rewrite Zplus_mod_idemp_l.
  f_equal. lia.
Qed.

(** C8. The category is a function of the date alone, read from the
    rotation at the day of the week: on a Sunday it is the first entry,
    "business"; the rotation has seven distinct entries, and the seven
    days starting at any date select each of them exactly once. *)
Theorem category_rotation (today : Date) :
  category today = nth_error CATEGORY_ROTATION (getDay today)
  /\ (getDay today = 0 ->
      category today = hd_error CATEGORY_ROTATION
      /\ category today = Some (str "business"))
  /\ length CATEGORY_ROTATION = 7 /\ NoDup CATEGORY_ROTATION
  /\ Permutation (map (fun k => category (addDays today k)) (seq 0 7))
       (map Some CATEGORY_ROTATION).
Proof.
  split; [reflexivity|]. split.
  { unfold category. intros ->. now split. }
  split; [reflexivity|]. split.
  { unfold CATEGORY_ROTATION.
    repeat (constructor; [vm_compute; intuition discriminate|]).
    constructor. }
  rewrite (map_ext _ (fun k => nth_error CATEGORY_ROTATION
                                 ((getDay today + k) mod 7)))
    by (intros k; unfold category; now rewrite getDay_addDays).
  pose proof (getDay_lt today) as Hlt.
  set (L := map Some CATEGORY_ROTATION).
  destruct (getDay today) as [|[|[|[|[|[|[|r]]]]]]] eqn:Hr; [..|lia].
  - apply Permutation_refl.
  - exact (Permutation_app_comm (skipn 1 L) (firstn 1 L)).
  - exact (Permutation_app_comm (skipn 2 L) (firstn 2 L)).
  - exact (Permutation_app_comm (skipn 3 L) (firstn 3 L)).
  - exact (Permutation_app_comm (skipn 4 L) (firstn 4 L)).
  - exact (Permutation_app_comm (skipn 5 L) (firstn 5 L)).
  - exact (Permutation_app_comm (skipn 6 L) (firstn 6 L)).
Qed.

(** 1970-01-04, three days after the epoch, was a Sunday. *)
Lemma category_rotation_witness :
  category (3 * msPerDay)%Z = Some (str "business").
Proof.
  apply (category_rotation (3 * msPerDay)%Z). reflexivity.
Defined.

(* ================================================================== *)
(** * ProviderClient *)

Lemma traceA_generateGroq (E : VariantA.env) (prompt : js_string) :
  trace (VariantA.generateGroq E prompt) = [Call Groq prompt].
Proof.
  unfold VariantA.generateGroq, bind, emit, await, throw, ret.
  destruct (VariantA.groq E); [|reflexivity]. cbn [negb].
  destruct (VariantA.groq_create E prompt) as [e|cs]; [reflexivity|].
  destruct (truthy _); reflexivity.
Qed.

Lemma traceB_generateGemini (E : VariantB.env) (prompt : js_string) :
  trace (VariantB.generateGemini E prompt) = [Call Gemini prompt].
Proof.
  unfold VariantB.generateGemini, bind, emit, await, throw, ret.
  destruct (VariantB.geminiAI E); [|reflexivity]. cbn [negb].
  destruct (VariantB.gemini_generateContent E prompt) as [e|res];
    [reflexivity|].
  destruct (gemini_text res) as [t|]; [destruct (truthy t)|]; reflexivity.
Qed.

(** Gemini, first variant: a text that is blank after trimming, or no
    text at all, makes the call fail. *)
Lemma generateGeminiA_blank_fails (E : VariantA.env) (prompt : js_string)
  (res : gemini_response) :
  VariantA.geminiAI E = true ->
  VariantA.gemini_generateContent E prompt = inr res ->
  falsy (gemini_text res) = true ->
  outcome (VariantA.generateGemini E prompt)
  = inl (Error (str "Empty Gemini response")).
Proof.
  intros Hk Hr Hf. unfold VariantA.generateGemini, bind, emit, await.
  rewrite Hk, Hr. cbn [negb]. unfold falsy in Hf.
  destruct (gemini_text res) as [t|]; [|reflexivity].
  apply negb_true_iff in Hf. now rewrite Hf.
Qed.

(** Gemini, second variant: the same. *)
Lemma generateGeminiB_blank_fails (E : VariantB.env) (prompt : js_string)
  (res : gemini_response) :
  VariantB.geminiAI E = true ->
  VariantB.gemini_generateContent E prompt = inr res ->
  falsy (gemini_text res) = true ->
  outcome (VariantB.generateGemini E prompt)
  = inl (Error (str "Empty Gemini response")).
Proof.
  intros Hk Hr Hf. unfold VariantB.generateGemini, bind, emit, await.
  rewrite Hk, Hr. cbn [negb]. unfold falsy in Hf.
  destruct (gemini_text res) as [t|]; [|reflexivity].
  apply negb_true_iff in Hf. now rewrite Hf.
Qed.

(** Groq over HTTP, second variant: the same. *)
Lemma generateGroqB_blank_fails (E : VariantB.env) (prompt : js_string)
  (data : option groq_data) :
  VariantB.GROQ_API_KEY E = true ->
  VariantB.groq_fetch E prompt = inr data ->
  falsy (VariantB.groq_text data) = true ->
  outcome (VariantB.generateGroq E prompt)
  = inl (Error (str "Empty Groq response")).
Proof.
  intros Hk Hr Hf. unfold VariantB.generateGroq, bind, emit, await.
  rewrite Hk, Hr. cbn [negb]. unfold falsy in Hf.
  destruct (VariantB.groq_text data) as [t|]; [|reflexivity].
  apply negb_true_iff in Hf. now rewrite Hf.
Qed.

(** C6 at its failing input. The streaming Groq client of the first
    variant tests the accumulated text without trimming it: a stream
    whose text is one space is not a failure, the space is returned. *)
Theorem generateGroq_stream_blank_returned :
  trim (str " ") = []
  /\ VariantA.generateGroq (sampleA (str " ") (str "joke")) (str "prompt")
     = (inr (str " "), [Call Groq (str "prompt")]).
Proof. split; reflexivity. Qed.

(* ================================================================== *)
(** * FallbackOrchestrator *)

(** The index drawn for the local fallback is inside the list. *)
Lemma random_entry_in (r : Q) (xs : list js_string) :
  xs <> [] -> (0 <= r)%Q -> (r < 1)%Q ->
  exists s, VariantB.random_entry r xs = VString s /\ In s xs.
Proof.
  intros Hne H0 H1. unfold VariantB.random_entry.
  set (n := Z.of_nat (length xs)).
  assert (0 < n)%Z as Hn by (destruct xs; [contradiction|simpl in n; lia]).
  destruct r as [a b]. unfold Qle, Qlt in H0, H1. simpl in H0, H1.
  assert (Qfloor ((a # b) * inject_Z n) = (a * n / Z.pos b)%Z) as Hk.
  { unfold Qfloor, Qmult, inject_Z. simpl. now rewrite Pos.mul_1_r. }
  rewrite Hk.
  assert (0 <= a * n / Z.pos b < n)%Z as [Hlo Hhi].
  { split; [apply Z.div_pos; nia|apply Z.div_lt_upper_bound; nia]. }
  destruct (Z.ltb_spec (a * n / Z.pos b) 0) as [?|_]; [lia|].
  destruct (nth_error xs (Z.to_nat (a * n / Z.pos b))) as [s|] eqn:Hs.
  - exists s. split; [reflexivity|]. eapply nth_error_In, Hs.
  - apply nth_error_None in Hs. lia.
Qed.

Lemma generateWithFallbackB_outcome (E : VariantB.env) (prompt : js_string)
  (localFallback : list js_string) :
  outcome (VariantB.generateWithFallback E prompt localFallback)
  = match outcome (VariantB.generateGemini E prompt) with
    | inr a => inr (VString a)
    | inl _ =>
        match outcome (VariantB.generateGroq E prompt) with
        | inr b => inr (VString b)
        | inl _ => inr (VariantB.random_entry (VariantB.Math_random E)
                          localFallback)
        end
    end.
Proof.
  unfold VariantB.generateWithFallback.
  destruct (VariantB.generateGemini E prompt) as [[e1|a] t1];
    destruct (VariantB.generateGroq E prompt) as [[e2|b] t2]; reflexivity.
Qed.

(** C3. With a non-empty local fallback list (and a draw of
    [Math.random] in [0, 1)), [generateWithFallback] of the second
    variant never throws: it returns a string; when both remote
    providers fail that string is an entry of the list, so with the
    list ["X"] it is "X". *)
Theorem generateWithFallback_never_fails (E : VariantB.env)
  (prompt : js_string) (localFallback : list js_string)
  (Hlist : localFallback <> [])
  (Hlo : (0 <= VariantB.Math_random E)%Q)
  (Hhi : (VariantB.Math_random E < 1)%Q) :
  exists s,
    outcome (VariantB.generateWithFallback E prompt localFallback)
    = inr (VString s)
    /\ (forall e1 e2,
          outcome (VariantB.generateGemini E prompt) = inl e1 ->
          outcome (VariantB.generateGroq E prompt) = inl e2 ->
          In s localFallback
          /\ (forall x, localFallback = [x] -> s = x)).
Proof.
  rewrite generateWithFallbackB_outcome.
  destruct (random_entry_in _ _ Hlist Hlo Hhi) as (s & Hs & Hin).
  destruct (outcome (VariantB.generateGemini E prompt)) as [e1|a].
  - destruct (outcome (VariantB.generateGroq E prompt)) as [e2|b].
    + exists s. rewrite Hs. split; [reflexivity|]. intros _ _ _ _.
      split; [exact Hin|]. intros x ->. destruct Hin as [<-|[]]. reflexivity.
    + exists b. split; [reflexivity|]. discriminate.
  - exists a. split; [reflexivity|]. discriminate.
Qed.

(** Attempts [fail, fail, localList = ["X"]] return "X". *)
Lemma generateWithFallback_never_fails_witness :
  outcome (VariantB.generateWithFallback (offlineB (1 # 2)) (str "prompt")
             [str "X"])
  = inr (VString (str "X")).
Proof.
  destruct (generateWithFallback_never_fails (offlineB (1 # 2)) (str "prompt")
              [str "X"]) as (s & Hs & Hfail).
  - discriminate.
  - vm_compute. discriminate.
  - reflexivity.
  - destruct (Hfail (Error (str "No GEMINI key")) (Error (str "No GROQ key"))
                eq_refl eq_refl) as [_ Hx].
    rewrite Hs, (Hx (str "X") eq_refl). reflexivity.
Defined.

Lemma generateWithFallbackA_success (E : VariantA.env) (prompt A : js_string) :
  outcome (VariantA.generateGroq E prompt) = inr A ->
  VariantA.generateWithFallback E prompt = (inr A, [Call Groq prompt]).
Proof.
  intros H. pose proof (traceA_generateGroq E prompt) as Ht.
  unfold VariantA.generateWithFallback.
  destruct (VariantA.generateGroq E prompt) as [[e|a] t];
    simpl in H, Ht; [discriminate|]. inversion H; subst. reflexivity.
Qed.

Lemma generateWithFallbackB_success (E : VariantB.env) (prompt A : js_string)
  (localFallback : list js_string) :
  outcome (VariantB.generateGemini E prompt) = inr A ->
  VariantB.generateWithFallback E prompt localFallback
  = (inr (VString A), [Call Gemini prompt]).
Proof.
  intros H. pose proof (traceB_generateGemini E prompt) as Ht.
  unfold VariantB.generateWithFallback.
  destruct (VariantB.generateGemini E prompt) as [[e|a] t];
    simpl in H, Ht; [discriminate|]. inversion H; subst. reflexivity.
Qed.

(** C4. When the first provider attempt succeeds with a text, the
    orchestrator of either variant returns that text, and its trace is
    the single call of the first provider: the second provider is not
    called and nothing is warned. *)
Theorem generateWithFallback_first_success (prompt A : js_string) :
  (forall E : VariantA.env,
      outcome (VariantA.generateGroq E prompt) = inr A ->
      outcome (VariantA.generateWithFallback E prompt) = inr A
      /\ trace (VariantA.generateWithFallback E prompt) = [Call Groq prompt]
      /\ forall p, ~ In (Call Gemini p)
                     (trace (VariantA.generateWithFallback E prompt)))
  /\ (forall (E : VariantB.env) localFallback,
        outcome (VariantB.generateGemini E prompt) = inr A ->
        outcome (VariantB.generateWithFallback E prompt localFallback)
        = inr (VString A)
        /\ trace (VariantB.generateWithFallback E prompt localFallback)
           = [Call Gemini prompt]
        /\ forall p, ~ In (Call Groq p)
                       (trace (VariantB.generateWithFallback E prompt
                                 localFallback))).
Proof.
  split.
  - intros E H. rewrite (generateWithFallbackA_success E prompt A H).
    repeat split. intros p [Hp|[]]. discriminate.
  - intros E lf H. rewrite (generateWithFallbackB_success E prompt A lf H).
    repeat split. intros p [Hp|[]]. discriminate.
Qed.

Lemma generateWithFallback_first_success_witness :
  outcome (VariantA.generateWithFallback (sampleA (str "A") (str "B"))
             (str "prompt")) = inr (str "A")
  /\ outcome (VariantB.generateWithFallback (sampleB (str "A") 0)
                (str "prompt") []) = inr (VString (str "A")).
Proof.
  destruct (generateWithFallback_first_success (str "prompt") (str "A"))
    as [HA HB].
  split.
  - apply (HA (sampleA (str "A") (str "B"))). reflexivity.
  - apply (HB (sampleB (str "A") 0) []). reflexivity.
Defined.

(* ================================================================== *)
(** * HeadlineSource *)

(** C5 at its failing input.  With both news keys set and a response
    that holds zero articles, neither [fetchNewsAPI] nor [fetchGNews]
    throws: each returns [undefined], where the claim has the fetch
    fail. *)
Theorem fetch_zero_articles_returns_undefined :
  zero_articles (Some {| articles := Some [] |})
  /\ VariantA.fetchNewsAPI (sampleA (str "A") (str "B")) (str "business")
     = (inr VUndefined, [])
  /\ VariantA.fetchGNews (sampleA (str "A") (str "B")) (str "business")
     = (inr VUndefined, [])
  /\ ~ (exists e,
          outcome (VariantA.fetchNewsAPI (sampleA (str "A") (str "B"))
                     (str "business")) = inl e)
  /\ ~ (exists e,
          outcome (VariantA.fetchGNews (sampleA (str "A") (str "B"))
                     (str "business")) = inl e).
Proof.
  repeat split; intros [e He]; discriminate.
Qed.

(** The two ways a fetcher throws, and what it returns for a response
    without articles, for every environment. *)
Lemma fetch_outcomes (E : VariantA.env)
  (category : js_string) :
  (forall data,
      VariantA.NEWS_API_KEY E = true ->
      VariantA.newsapi_fetch E category = inr data -> zero_articles data ->
      outcome (VariantA.fetchNewsAPI E category) = inr VUndefined)
  /\ (forall data,
        VariantA.NEWS_API_KEY_2 E = true ->
        VariantA.gnews_fetch E category = inr data -> zero_articles data ->
        outcome (VariantA.fetchGNews E category) = inr VUndefined)
  /\ (forall e,
        outcome (VariantA.fetchNewsAPI E category) = inl e ->
        VariantA.NEWS_API_KEY E = false /\ e = Error (str "No NewsAPI")
        \/ VariantA.newsapi_fetch E category = inl e)
  /\ (forall e,
        outcome (VariantA.fetchGNews E category) = inl e ->
        VariantA.NEWS_API_KEY_2 E = false /\ e = Error (str "No GNews")
        \/ VariantA.gnews_fetch E category = inl e).
Proof.
  unfold zero_articles, VariantA.fetchNewsAPI, VariantA.fetchGNews,
    first_title, bind, await, throw, ret, outcome.
  repeat split.
  - intros data -> -> Hz. simpl. now rewrite Hz.
  - intros data -> -> Hz. simpl. now rewrite Hz.
  - intros e. destruct (VariantA.NEWS_API_KEY E); simpl.
    + destruct (VariantA.newsapi_fetch E category); simpl;
        [intros [= ->]; now right|discriminate].
    + intros [= <-]. now left.
  - intros e. destruct (VariantA.NEWS_API_KEY_2 E); simpl.
    + destruct (VariantA.gnews_fetch E category); simpl;
        [intros [= ->]; now right|discriminate].
    + intros [= <-]. now left.
Qed.

(* ================================================================== *)
(** * More on wrapText *)

Lemma trim_snoc_space (s : js_string) : trim (s ++ [SP]) = trim s.
Proof. unfold trim. now rewrite trimEnd_snoc_space. Qed.

(** While the text read so far fits, the loop pushes nothing. *)
Lemma wrap_fold_short (n : nat) (ws : list js_string) :
  forall lines line,
    ws <> [] -> length (line ++ join [SP] ws) <= n ->
    fold_left (wrap_step n) ws (lines, line)
    = (lines, line ++ join [SP] ws ++ [SP]).
Proof.
  induction ws as [|w ws IH]; intros lines line Hne Hlen; [contradiction|].
  destruct ws as [|w' ws].
  - simpl in *. apply Nat.ltb_ge in Hlen. now rewrite Hlen.
  - rewrite join_cons in * by discriminate.
    change (fold_left (wrap_step n) (w :: w' :: ws) (lines, line))
      with (fold_left (wrap_step n) (w' :: ws)
              (wrap_step n (lines, line) w)).
    assert ((n <? length (line ++ w)) = false) as Hfit.
    { apply Nat.ltb_ge. rewrite !length_app in *. lia. }
    unfold wrap_step at 2. rewrite Hfit. rewrite IH.
    + now rewrite <- !app_assoc.
    + discriminate.
    + rewrite <- !app_assoc. exact Hlen.
Qed.

(** X1. A text that is not longer than the width comes back as one
    line, its trim, or as no line when it is blank. *)
Theorem wrapText_short_text (text : js_string) (maxChars : nat)
  (Hshort : length text <= maxChars) :
  wrapText text maxChars = if truthy (trim text) then [trim text] else [].
Proof.
  unfold wrapText.
  rewrite wrap_fold_short.
  - rewrite join_split_space. simpl app. now rewrite trim_snoc_space.
  - apply split_space_nonnil.
  - now rewrite join_split_space.
Qed.

Lemma wrapText_short_text_witness :
  wrapText (str "  hello world ") 20 = [str "hello world"].
Proof.
  rewrite (wrapText_short_text (str "  hello world ") 20).
  - reflexivity.
  - simpl. lia.
Defined.



(* ================================================================== *)
(** * More on escapeSvg *)

Lemma escapeSvg_app (a b : js_string) :
  escapeSvg (a ++ b) = escapeSvg a ++ escapeSvg b.
Proof. rewrite !escapeSvg_units. apply flat_map_app. Qed.

Lemma escape_unit_cases (c : N) :
  (c = AMP /\ escape_unit c = str "&amp;")
  \/ (c = LT /\ escape_unit c = str "&lt;")
  \/ (c = GT /\ escape_unit c = str "&gt;")
  \/ (c <> AMP /\ c <> LT /\ c <> GT /\ escape_unit c = [c]).
Proof.
  unfold escape_unit.
  destruct (N.eqb_spec c AMP); [now left|].
  destruct (N.eqb_spec c LT); [right; now left|].
  destruct (N.eqb_spec c GT); [right; right; now left|].
  right; right; right. now repeat split.
Qed.

Lemma escape_unit_head (c d : N) (r1 r2 : js_string) :
  escape_unit c ++ r1 = escape_unit d ++ r2 -> c = d /\ r1 = r2.
Proof.
  destruct (escape_unit_cases c) as [[-> ->]|[[-> ->]|[[-> ->]|(A1 & A2 & A3 & ->)]]];
    destruct (escape_unit_cases d) as [[-> ->]|[[-> ->]|[[-> ->]|(B1 & B2 & B3 & ->)]]];
    simpl; intros H; inversion H; subst; try (split; reflexivity);
    try contradiction; try discriminate.
Qed.

(** X3. [escapeSvg] is injective: two different texts never escape to
    the same string. *)
Theorem escapeSvg_injective (s t : js_string) :
  escapeSvg s = escapeSvg t -> s = t.
Proof.
  rewrite !escapeSvg_units. revert t.
  induction s as [|c s IH]; intros [|d t] H.
  - reflexivity.
  - simpl in H. destruct (escape_unit_cases d)
      as [[_ E]|[[_ E]|[[_ E]|(_ & _ & _ & E)]]]; rewrite E in H; discriminate.
  - simpl in H. destruct (escape_unit_cases c)
      as [[_ E]|[[_ E]|[[_ E]|(_ & _ & _ & E)]]]; rewrite E in H; discriminate.
  - simpl in H. apply escape_unit_head in H. destruct H as [-> H].
    f_equal. now apply IH.
Qed.

Lemma escapeSvg_injective_witness :
  str "a<b" = str "a<b".
Proof.
  apply (escapeSvg_injective (str "a<b") (str "a<b")). reflexivity.
Defined.

(** X4. [escapeSvg] leaves a text as it is exactly when the text has
    none of the three reserved characters, and it never shortens a
    text. *)
Theorem escapeSvg_identity_iff (s : js_string) :
  (escapeSvg s = s <-> reserved_free s)
  /\ length s <= length (escapeSvg s).
Proof.
  rewrite escapeSvg_units. unfold reserved_free.
  induction s as [|c s [[IH1 IH2] IHl]].
  - simpl. repeat split; auto.
  - cbn [flat_map occ]. rewrite length_app. cbn [length].
    destruct (escape_unit_cases c)
      as [[-> ->]|[[-> ->]|[[-> ->]|(A1 & A2 & A3 & ->)]]].
    + split; [|simpl; lia]. split.
      * intros H. exfalso. apply (f_equal (@length N)) in H.
        simpl in H. lia.
      * intros (H & _). discriminate.
    + split; [|simpl; lia]. split.
      * intros H. discriminate.
      * intros (_ & H & _). discriminate.
    + split; [|simpl; lia]. split.
      * intros H. discriminate.
      * intros (_ & _ & H). discriminate.
    + apply N.eqb_neq in A1, A2, A3. rewrite A1, A2, A3.
      split; [|simpl; lia]. split.
      * intros H. inversion H as [H']. rewrite H'. now apply IH1.
      * intros H. simpl. f_equal. now apply IH2.
Qed.

Lemma escapeSvg_identity_iff_witness :
  escapeSvg (str "Daily Joke") = str "Daily Joke".
Proof.
  apply (proj1 (escapeSvg_identity_iff (str "Daily Joke"))).
  repeat split.
Defined.

(* ================================================================== *)
(** * The frame of the document *)

Lemma trim_cons_white_space (c : N) (s : js_string) :
  is_white_space c = true -> trim (c :: s) = trim s.
Proof.
  intros Hc. unfold trim. simpl trimEnd.
  destruct (trimEnd s) as [|x t]; rewrite ?Hc; simpl; now rewrite ?Hc.
Qed.

Lemma trim_snoc_LF (s : js_string) : trim (s ++ [LF]) = trim s.
Proof. unfold trim. now rewrite trimEnd_app. Qed.

Lemma starts_black_app (a b : js_string) :
  starts_black a = true -> starts_black (a ++ b) = true.
Proof. destruct a; [discriminate|auto]. Qed.

Lemma trimStart_black (s : js_string) :
  starts_black s = true -> trimStart s = s.
Proof.
  destruct s as [|c s]; [discriminate|]. simpl. intros H.
  apply negb_true_iff in H. now rewrite H.
Qed.

Lemma trimEnd_cons_black (c : N) (s : js_string) :
  is_white_space c = false -> trimEnd (c :: s) = c :: trimEnd s.
Proof. intros H. simpl. rewrite H. now destruct (trimEnd s). Qed.

Lemma trim_framed (y t : js_string) :
  starts_black y = true -> starts_black t = true -> trimEnd t = t ->
  trim (y ++ t) = y ++ t.
Proof.
  intros Hy Ht He. unfold trim. rewrite trimEnd_app, He.
  destruct t as [|c t]; [discriminate|].
  apply trimStart_black. now apply starts_black_app.
Qed.

(** X5. The document that [writeSvg] writes has no white space around
    it: it begins with the [svg] opening tag, of width 900 and of
    height the base (70 in the first variant, 60 in the second) plus 22
    per wrapped line of the content, and it ends with the closing tag. *)
Theorem writeSvg_frame (filename title content accent dateStr : js_string) :
  let n := length (wrapText content default_maxChars) in
  let opening h :=
    str "<svg xmlns=" ++ quoted "http://www.w3.org/2000/svg"
    ++ str " width=" ++ quoted "900" ++ str " height=" ++ [DQ]
    ++ show_nat h ++ [DQ] ++ str ">" in
  (exists body,
      fw_data (VariantA.writeSvg filename title content accent dateStr)
      = opening (70 + n * 22) ++ body ++ str "</svg>")
  /\ (exists body,
        fw_data (VariantB.writeSvg filename title content accent dateStr)
        = opening (60 + n * 22) ++ body ++ str "</svg>").
Proof.
  intros n opening.
  assert (forall base, exists body,
    svgDocument base title content accent dateStr
    = opening (base + n * 22) ++ body ++ str "</svg>") as Hdoc.
  { intros base. unfold svgDocument, opening. fold n.
    change ([LF] ++ ?x) with (LF :: x) at 1.
    rewrite trim_cons_white_space by reflexivity.
    rewrite !app_assoc. rewrite trim_snoc_LF.
    rewrite trim_framed;
      [|repeat apply starts_black_app; reflexivity|reflexivity..].
    rewrite <- !app_assoc.
    match goal with
    | |- exists body, _ ++ _ ++ _ ++ _ ++ _ ++ _ ++ _ ++ _ ++ _ ++ ?rest = _ =>
        assert (exists body, rest = body ++ str "</svg>") as [body Hb]
          by (rewrite !app_assoc; eexists; reflexivity);
        exists body; rewrite Hb
    end.
    now rewrite <- !app_assoc. }
  split; apply Hdoc.
Qed.

(* ================================================================== *)
(** * Files *)

Lemma str_eqb_eq (a b : js_string) : str_eqb a b = true <-> a = b.
Proof.
  revert b. induction a as [|x a IH]; intros [|y b]; simpl;
    try (split; [discriminate|discriminate]); [tauto|].
  rewrite andb_true_iff, N.eqb_eq, IH. split.
  - intros [-> ->]. reflexivity.
  - intros [= -> ->]. now split.
Qed.

Lemma str_eqb_refl (a : js_string) : str_eqb a a = true.
Proof. now apply str_eqb_eq. Qed.

Lemma str_eqb_neq (a b : js_string) : a <> b -> str_eqb a b = false.
Proof.
  intros H. destruct (str_eqb a b) eqn:E; [|reflexivity].
  apply str_eqb_eq in E. contradiction.
Qed.

Lemma readFile_write_same (fs : list (js_string * js_string))
  (file data : js_string) :
  readFile (writeFileSync fs file data) file = Some data.
Proof.
  induction fs as [|[name old] fs IH]; simpl.
  - now rewrite str_eqb_refl.
  - destruct (str_eqb name file) eqn:E; simpl; now rewrite E.
Qed.

Lemma readFile_write_other (fs : list (js_string * js_string))
  (file data other : js_string) :
  file <> other ->
  readFile (writeFileSync fs file data) other = readFile fs other.
Proof.
  intros Hne. induction fs as [|[name old] fs IH]; simpl.
  - now rewrite str_eqb_neq.
  - destruct (str_eqb name file) eqn:E; simpl.
    + apply str_eqb_eq in E. subst name. now rewrite str_eqb_neq.
    + now rewrite IH.
Qed.

(** The content of a file, the empty string for a missing file. *)
Lemma readFile_append_same (fs : list (js_string * js_string))
  (file data : js_string) :
  readFile (appendFileSync fs file data) file
  = Some (match readFile fs file with Some old => old | None => [] end
          ++ data).
Proof.
  unfold appendFileSync.
  destruct (readFile fs file); now rewrite readFile_write_same.
Qed.

Lemma readFile_append_other (fs : list (js_string * js_string))
  (file data other : js_string) :
  file <> other ->
  readFile (appendFileSync fs file data) other = readFile fs other.
Proof.
  intros Hne. unfold appendFileSync.
  destruct (readFile fs file); now apply readFile_write_other.
Qed.

(* ================================================================== *)
(** * getLastLine *)

Lemma split_unit_nonnil (sep : N) (s : js_string) : split_unit sep s <> [].
Proof.
  induction s as [|c s IH]; simpl; [discriminate|].
  destruct (c =? sep)%N; [discriminate|].
  destruct (split_unit sep s); discriminate.
Qed.

Lemma split_unit_app (sep : N) (a b : js_string) :
  split_unit sep (a ++ sep :: b) = split_unit sep a ++ split_unit sep b.
Proof.
  induction a as [|c a IH]; simpl.
  - now rewrite N.eqb_refl.
  - destruct (c =? sep)%N; rewrite IH; [reflexivity|].
    pose proof (split_unit_nonnil sep a) as Ha.
    destruct (split_unit sep a); [contradiction|reflexivity].
Qed.

Lemma split_unit_whole (sep : N) (s : js_string) :
  occ sep s = 0 -> split_unit sep s = [s].
Proof.
  induction s as [|c s IH]; simpl; [reflexivity|].
  destruct (c =? sep)%N; [discriminate|]. intros H. now rewrite IH.
Qed.

Lemma split_unit_pieces (sep : N) (s : js_string) :
  Forall (fun p => occ sep p = 0) (split_unit sep s).
Proof.
  induction s as [|c s IH]; simpl; [now repeat constructor|].
  destruct (c =? sep)%N eqn:Hc; [now constructor|].
  destruct (split_unit sep s) as [|w ws].
  - repeat constructor. simpl. now rewrite Hc.
  - inversion IH; subst. constructor; [|assumption]. simpl. now rewrite Hc.
Qed.

Lemma split_unit_last_suffix_aux (sep : N) (s : js_string) :
  exists a, s = a ++ last (split_unit sep s) []
            /\ (forall w, split_unit sep s = [w] -> a = []).
Proof.
  induction s as [|c s (a & IH & Hone)]; [now exists []|]. simpl split_unit.
  pose proof (split_unit_nonnil sep s) as Hne.
  destruct (c =? sep)%N.
  - exists (c :: a). destruct (split_unit sep s) as [|w ws]; [contradiction|].
    split; [|discriminate]. simpl in *. now rewrite <- IH.
  - destruct (split_unit sep s) as [|w ws]; [contradiction|].
    destruct ws as [|w' ws].
    + exists []. split; [|reflexivity].
      rewrite (Hone w eq_refl) in IH. simpl in *. now rewrite <- IH.
    + exists (c :: a). split; [|discriminate]. simpl in *. now rewrite <- IH.
Qed.

(** The text is what precedes its last piece, then that piece. *)
Lemma split_unit_last_suffix (sep : N) (s : js_string) :
  exists a, s = a ++ last (split_unit sep s) [].
Proof.
  destruct (split_unit_last_suffix_aux sep s) as (a & H & _). now exists a.
Qed.

Lemma nth_error_last {A} (l : list A) (d : A) :
  l <> [] -> nth_error l (length l - 1) = Some (last l d).
Proof.
  induction l as [|x l IH]; [contradiction|]. intros _.
  destruct l as [|y l]; [reflexivity|].
  replace (length (x :: y :: l) - 1) with (S (length (y :: l) - 1))
    by (simpl; lia).
  change (nth_error (x :: y :: l) (S (length (y :: l) - 1)))
    with (nth_error (y :: l) (length (y :: l) - 1)).
  rewrite IH by discriminate. reflexivity.
Qed.

Lemma last_app_nonnil {A} (l1 l2 : list A) (d : A) :
  l2 <> [] -> last (l1 ++ l2) d = last l2 d.
Proof.
  intros H. induction l1 as [|x l1 IH]; [reflexivity|].
  simpl. destruct (l1 ++ l2) eqn:E; [|exact IH].
  apply app_eq_nil in E. destruct E as [_ E]. contradiction.
Qed.

Lemma last_In {A} (l : list A) (d : A) : l <> [] -> In (last l d) l.
Proof.
  induction l as [|x l IH]; [contradiction|]. intros _.
  destruct l as [|y l]; [now left|]. right. apply IH. discriminate.
Qed.

(** What [getLastLine] returns for a file with content [content]. *)
Lemma getLastLine_content (fs : list (js_string * js_string))
  (file content : js_string) :
  readFile fs file = Some content ->
  getLastLine fs file = last (split_unit LF (trim content)) [].
Proof.
  intros H. unfold getLastLine, existsSync. rewrite H. cbn [negb].
  rewrite (nth_error_last _ []) by apply split_unit_nonnil.
  now destruct (last (split_unit LF (trim content)) []).
Qed.

Lemma occ_zero_app (c : N) (a b : js_string) :
  occ c (a ++ b) = 0 -> occ c a = 0 /\ occ c b = 0.
Proof. rewrite occ_app. lia. Qed.

Lemma trimEnd_suffix_fixed (a p : js_string) :
  trimEnd (a ++ p) = a ++ p -> trimEnd p = p.
Proof.
  rewrite trimEnd_app. destruct (trimEnd p) as [|x t] eqn:Hp.
  - intros H. pose proof (trimEnd_length a) as Hl. rewrite H in Hl.
    rewrite length_app in Hl. destruct p; [reflexivity|simpl in Hl; lia].
  - intros H. now apply app_inv_head in H.
Qed.

(** X6. [getLastLine] returns one line: its result has no line break
    and no white space at its end; for a missing file and for a file
    that is empty or blank the result is the empty string. *)
Theorem getLastLine_one_line (fs : list (js_string * js_string))
  (file : js_string) :
  occ LF (getLastLine fs file) = 0
  /\ trimEnd (getLastLine fs file) = getLastLine fs file
  /\ (readFile fs file = None -> getLastLine fs file = [])
  /\ (forall content,
        readFile fs file = Some content -> trim content = [] ->
        getLastLine fs file = []).
Proof.
  destruct (readFile fs file) as [content|] eqn:Hr.
  - rewrite (getLastLine_content fs file content Hr).
    repeat split.
    + pose proof (split_unit_pieces LF (trim content)) as Hp.
      rewrite Forall_forall in Hp. apply Hp.
      apply last_In, split_unit_nonnil.
    + destruct (split_unit_last_suffix LF (trim content)) as [a Ha].
      apply (trimEnd_suffix_fixed a). rewrite <- Ha.
      unfold trim. rewrite trimStart_trimEnd. apply trimEnd_idem.
    + discriminate.
    + intros c [= <-] Ht. now rewrite Ht.
  - unfold getLastLine, existsSync. rewrite Hr. repeat split; discriminate.
Qed.

Lemma getLastLine_one_line_witness :
  getLastLine [(str "news.txt", str "old" ++ [LF])] (str "jokes.txt") = []
  /\ getLastLine [(str "jokes.txt", [LF; SP; LF])] (str "jokes.txt") = [].
Proof.
  split.
  - apply (getLastLine_one_line [(str "news.txt", str "old" ++ [LF])]
             (str "jokes.txt")). reflexivity.
  - destruct (getLastLine_one_line [(str "jokes.txt", [LF; SP; LF])]
                (str "jokes.txt")) as (_ & _ & _ & Hblank).
    apply (Hblank [LF; SP; LF]); reflexivity.
Defined.

Lemma trimStart_app_black (a x : js_string) :
  starts_black x = true -> trimStart (a ++ x) = trimStart a ++ x.
Proof.
  intros Hx. induction a as [|c a IH]; simpl.
  - now apply trimStart_black.
  - destruct (is_white_space c); [exact IH|reflexivity].
Qed.

Lemma trimStart_snoc_LF (o : js_string) :
  trimStart (o ++ [LF])
  = match trimStart o with [] => [] | _ :: _ => trimStart o ++ [LF] end.
Proof.
  induction o as [|c o IH]; [reflexivity|]. simpl.
  destruct (is_white_space c); [exact IH|reflexivity].
Qed.

Lemma trimStart_terminated (a : js_string) :
  terminated a -> terminated (trimStart a).
Proof.
  intros [->|[o ->]]; [now left|]. rewrite trimStart_snoc_LF.
  destruct (trimStart o) as [|x t]; [now left|]. right. now exists (x :: t).
Qed.

Lemma last_piece_after_log (a x : js_string) :
  terminated a -> occ LF x = 0 -> last (split_unit LF (a ++ x)) [] = x.
Proof.
  intros [->|[o ->]] Hx.
  - simpl. now rewrite split_unit_whole.
  - rewrite <- app_assoc. simpl app. rewrite split_unit_app.
    rewrite last_app_nonnil by apply split_unit_nonnil.
    now rewrite split_unit_whole.
Qed.

(** The line just appended is the last line. *)
Lemma appended_line_is_last (fs : list (js_string * js_string))
  (file entry : js_string)
  (Hlog : terminated (content_of fs file))
  (Hline : occ LF entry = 0)
  (Hhead : starts_black entry = true) :
  getLastLine (appendFileSync fs file (entry ++ [LF])) file = trimEnd entry.
Proof.
  pose proof (readFile_append_same fs file (entry ++ [LF])) as Hr.
  fold (content_of fs file) in Hr.
  rewrite (getLastLine_content _ _ _ Hr).
  destruct entry as [|c e]; [discriminate|].
  simpl in Hhead. apply negb_true_iff in Hhead.
  assert (trim (content_of fs file ++ (c :: e) ++ [LF])
          = trimStart (content_of fs file) ++ trimEnd (c :: e)) as Ht.
  { unfold trim. rewrite app_assoc.
    rewrite (trimEnd_app (content_of fs file ++ c :: e) [LF]).
    change (trimEnd [LF]) with (@nil N). cbv iota.
    rewrite trimEnd_app, (trimEnd_cons_black c e Hhead).
    apply trimStart_app_black. simpl. now rewrite Hhead. }
  rewrite Ht. apply last_piece_after_log.
  - now apply trimStart_terminated.
  - destruct (trimEnd_prefix (c :: e)) as [t Hp]. rewrite Hp in Hline.
    now apply occ_zero_app in Hline.
Qed.

(** X7. After [appendFileSync(file, entry + "\n")], for an entry with
    no line break that does not begin with white space, on a log that
    was missing, empty or ended by a line break, [getLastLine] returns
    the entry without its trailing white space; and the log is again
    ended by a line break. *)
Theorem getLastLine_after_append (fs : list (js_string * js_string))
  (file entry : js_string)
  (Hlog : terminated (content_of fs file))
  (Hline : occ LF entry = 0)
  (Hhead : starts_black entry = true) :
  getLastLine (appendFileSync fs file (entry ++ [LF])) file = trimEnd entry
  /\ terminated (content_of (appendFileSync fs file (entry ++ [LF])) file).
Proof.
  split; [now apply appended_line_is_last|].
  unfold content_of at 1. rewrite readFile_append_same. right.
  exists (content_of fs file ++ entry). unfold content_of.
  now rewrite app_assoc.
Qed.

Lemma getLastLine_after_append_witness :
  getLastLine
    (appendFileSync [(str "jokes.txt", str "[2026-01-01] old joke" ++ [LF])]
       (str "jokes.txt") (str "[2026-01-02] new joke  " ++ [LF]))
    (str "jokes.txt")
  = str "[2026-01-02] new joke".
Proof.
  apply (getLastLine_after_append
           [(str "jokes.txt", str "[2026-01-01] old joke" ++ [LF])]
           (str "jokes.txt") (str "[2026-01-02] new joke  ")).
  - right. exists (str "[2026-01-01] old joke"). reflexivity.
  - reflexivity.
  - reflexivity.
Defined.

(* ================================================================== *)
(** * What the providers return *)

Lemma replace_all_map (c d : N) (s : js_string) :
  replace_all c [d] s = map (fun x => if (x =? c)%N then d else x) s.
Proof.
  unfold replace_all. induction s as [|x s IH]; [reflexivity|].
  simpl. rewrite IH. now destruct (x =? c)%N.
Qed.

Lemma single_line_no_LF (s : js_string) : occ LF (replace_all LF [SP] s) = 0.
Proof.
  rewrite replace_all_map. induction s as [|x s IH]; [reflexivity|].
  simpl. destruct (N.eqb_spec x LF) as [->|Hx]; [exact IH|].
  apply N.eqb_neq in Hx. now rewrite Hx.
Qed.

Lemma single_line_truthy (s : js_string) :
  truthy (replace_all LF [SP] s) = truthy s.
Proof. rewrite replace_all_map. now destruct s. Qed.

Lemma black_not_LF (c : N) : is_white_space c = false -> (c =? LF)%N = false.
Proof.
  intros H. destruct (N.eqb_spec c LF) as [->|]; [discriminate|reflexivity].
Qed.

Lemma single_line_trimEnd (s : js_string) :
  trimEnd s = s -> trimEnd (replace_all LF [SP] s) = replace_all LF [SP] s.
Proof.
  rewrite replace_all_map. induction s as [|c s IH]; [reflexivity|].
  cbn [trimEnd map]. destruct (trimEnd s) as [|x t] eqn:Hs.
  - destruct (is_white_space c) eqn:Hc; [discriminate|].
    intros [= <-]. simpl. now rewrite (black_not_LF c Hc), Hc.
  - intros [= <-]. rewrite IH by reflexivity. reflexivity.
Qed.

(** Replacing the line breaks of a trimmed text by spaces leaves it
    trimmed. *)
Lemma single_line_trim (s : js_string) :
  trim s = s -> trim (replace_all LF [SP] s) = replace_all LF [SP] s.
Proof.
  intros H. apply trim_fixed in H. destruct H as [Hs He].
  unfold trim. rewrite single_line_trimEnd by assumption.
  rewrite replace_all_map.
  destruct (trimStart_head s Hs) as [->|(c & s' & -> & Hc)]; [reflexivity|].
  simpl. now rewrite (black_not_LF c Hc), Hc.
Qed.

Lemma option_map_trim (o : option js_string) (t : js_string) :
  option_map trim o = Some t -> trim t = t.
Proof. destruct o; [|discriminate]. intros [= <-]. apply trim_idem. Qed.

(** What each provider returns on success. *)
Lemma provider_texts (prompt t : js_string) :
  (forall E : VariantA.env,
      outcome (VariantA.generateGroq E prompt) = inr t ->
      truthy t = true /\ occ LF t = 0)
  /\ (forall E : VariantA.env,
        outcome (VariantA.generateGemini E prompt) = inr t ->
        truthy t = true /\ occ LF t = 0 /\ trim t = t)
  /\ (forall E : VariantB.env,
        outcome (VariantB.generateGemini E prompt) = inr t ->
        truthy t = true /\ occ LF t = 0 /\ trim t = t)
  /\ (forall E : VariantB.env,
        outcome (VariantB.generateGroq E prompt) = inr t ->
        truthy t = true /\ occ LF t = 0 /\ trim t = t).
Proof.
  repeat split; revert H.
  all: unfold VariantA.generateGroq, VariantA.generateGemini,
         VariantB.generateGemini, VariantB.generateGroq,
         VariantB.groq_text, gemini_text, bind, emit, await, throw, ret,
         outcome.
  all: try (destruct (VariantA.groq E); [|discriminate];
            destruct (VariantA.groq_create E prompt) as [e|cs];
            [discriminate|]; cbn [negb fst];
            match goal with
            | |- context [truthy ?r] => destruct (truthy r) eqn:Ht
            end; [|discriminate]; simpl; intros [= <-]).
  all: try (destruct (VariantA.geminiAI E); [|discriminate];
            destruct (VariantA.gemini_generateContent E prompt) as [e|res];
            [discriminate|]; cbn [negb fst]).
  all: try (destruct (VariantB.geminiAI E); [|discriminate];
            destruct (VariantB.gemini_generateContent E prompt) as [e|res];
            [discriminate|]; cbn [negb fst]).
  all: try (destruct (VariantB.GROQ_API_KEY E); [|discriminate];
            destruct (VariantB.groq_fetch E prompt) as [e|res];
            [discriminate|]; cbn [negb fst]).
  all: try (match goal with
            | |- context [option_map trim ?o] =>
                destruct (option_map trim o) as [u|] eqn:Hu;
                [|discriminate]; destruct (truthy u) eqn:Ht;
                [|discriminate]; simpl; intros [= <-];
                apply option_map_trim in Hu
            end).
  all: first [ now rewrite single_line_truthy
             | apply single_line_no_LF
             | now apply single_line_trim ].
Qed.

(** X8. A text returned by a provider is not empty and has no line
    break; a text returned by Gemini (either variant) or by the HTTP
    Groq client of the second variant has no white space at its ends
    either. *)
Theorem provider_text_shape (prompt t : js_string) :
  (forall E : VariantA.env,
      outcome (VariantA.generateGroq E prompt) = inr t ->
      truthy t = true /\ occ LF t = 0)
  /\ (forall E : VariantA.env,
        outcome (VariantA.generateGemini E prompt) = inr t ->
        truthy t = true /\ occ LF t = 0 /\ trim t = t)
  /\ (forall E : VariantB.env,
        outcome (VariantB.generateGemini E prompt) = inr t ->
        truthy t = true /\ occ LF t = 0 /\ trim t = t)
  /\ (forall E : VariantB.env,
        outcome (VariantB.generateGroq E prompt) = inr t ->
        truthy t = true /\ occ LF t = 0 /\ trim t = t).
Proof. intros. apply provider_texts; assumption. Qed.

Lemma provider_text_shape_witness :
  truthy (str "A") = true /\ occ LF (str "A") = 0 /\ trim (str "A") = str "A".
Proof.
  destruct (provider_text_shape (str "prompt") (str "A"))
    as (_ & Hgemini & _).
  apply (Hgemini (sampleA (str "B") (str "A"))). reflexivity.
Defined.

(* ================================================================== *)
(** * More on the orchestrators *)

Lemma traceA_generateGemini (E : VariantA.env) (prompt : js_string) :
  trace (VariantA.generateGemini E prompt) = [Call Gemini prompt].
Proof.
  unfold VariantA.generateGemini, bind, emit, await, throw, ret.
  destruct (VariantA.geminiAI E); [|reflexivity]. cbn [negb].
  destruct (VariantA.gemini_generateContent E prompt) as [e|res];
    [reflexivity|].
  destruct (gemini_text res) as [t|]; [destruct (truthy t)|]; reflexivity.
Qed.

Lemma traceB_generateGroq (E : VariantB.env) (prompt : js_string) :
  trace (VariantB.generateGroq E prompt) = [Call Groq prompt].
Proof.
  unfold VariantB.generateGroq, bind, emit, await, throw, ret.
  destruct (VariantB.GROQ_API_KEY E); [|reflexivity]. cbn [negb].
  destruct (VariantB.groq_fetch E prompt) as [e|data]; [reflexivity|].
  destruct (VariantB.groq_text data) as [t|]; [destruct (truthy t)|];
    reflexivity.
Qed.

(** X9. When Groq fails in the first variant, its message is warned
    once; without a Gemini client the error of Groq itself is thrown
    again and Gemini is not called, with a Gemini client the call ends
    as the Gemini call ends, by its text or by its error. *)
Theorem generateWithFallbackA_failover (E : VariantA.env)
  (prompt : js_string) (e : error)
  (Hgroq : outcome (VariantA.generateGroq E prompt) = inl e) :
  (VariantA.geminiAI E = false ->
   VariantA.generateWithFallback E prompt
   = (inl e, [Call Groq prompt; WarnFailed Groq (message e)]))
  /\ (VariantA.geminiAI E = true ->
      outcome (VariantA.generateWithFallback E prompt)
      = outcome (VariantA.generateGemini E prompt)
      /\ trace (VariantA.generateWithFallback E prompt)
         = [Call Groq prompt; WarnFailed Groq (message e);
            Call Gemini prompt]).
Proof.
  pose proof (traceA_generateGroq E prompt) as Ht.
  pose proof (traceA_generateGemini E prompt) as Hg.
  unfold VariantA.generateWithFallback.
  destruct (VariantA.generateGroq E prompt) as [[e'|a] t];
    simpl in Hgroq, Ht; [|discriminate]. inversion Hgroq; subst.
  split; intros Hk; rewrite Hk.
  - reflexivity.
  - destruct (VariantA.generateGemini E prompt) as [r tg]. simpl in Hg.
    subst tg. split; reflexivity.
Qed.

Lemma generateWithFallbackA_failover_witness :
  VariantA.generateWithFallback
    {| VariantA.groq := false; VariantA.geminiAI := false;
       VariantA.NEWS_API_KEY := true; VariantA.NEWS_API_KEY_2 := true;
       VariantA.groq_create := fun _ => unreachable;
       VariantA.gemini_generateContent := fun _ => unreachable;
       VariantA.newsapi_fetch := fun _ => unreachable;
       VariantA.gnews_fetch := fun _ => unreachable |} (str "prompt")
  = (inl (Error (str "No GROQ key")),
     [Call Groq (str "prompt"); WarnFailed Groq (str "No GROQ key")]).
Proof.
  refine (proj1 (generateWithFallbackA_failover _ (str "prompt")
                   (Error (str "No GROQ key")) _) _); reflexivity.
Defined.

(** The orchestrator of the second variant returns. *)
Lemma generateWithFallbackB_returns (E : VariantB.env) (prompt : js_string)
  (localFallback : list js_string) :
  exists v,
    outcome (VariantB.generateWithFallback E prompt localFallback) = inr v.
Proof.
  rewrite generateWithFallbackB_outcome.
  destruct (outcome (VariantB.generateGemini E prompt));
    [destruct (outcome (VariantB.generateGroq E prompt))|]; eexists;
    reflexivity.
Qed.

(** X10. [generateWithFallback] of the second variant never throws,
    whatever the providers answer, the list and the draw; when both
    providers fail and the list is empty it returns [undefined]. *)
Theorem generateWithFallbackB_total (E : VariantB.env) (prompt : js_string)
  (localFallback : list js_string) :
  (exists v,
      outcome (VariantB.generateWithFallback E prompt localFallback) = inr v)
  /\ (forall e1 e2,
        outcome (VariantB.generateGemini E prompt) = inl e1 ->
        outcome (VariantB.generateGroq E prompt) = inl e2 ->
        localFallback = [] ->
        outcome (VariantB.generateWithFallback E prompt localFallback)
        = inr VUndefined).
Proof.
  split; [apply generateWithFallbackB_returns|].
  rewrite generateWithFallbackB_outcome.
  intros e1 e2 -> -> ->. unfold VariantB.random_entry.
  destruct (_ <? 0)%Z; [reflexivity|].
  now destruct (Z.to_nat _).
Qed.

Lemma generateWithFallbackB_total_witness :
  outcome (VariantB.generateWithFallback (offlineB (1 # 2)) (str "prompt") [])
  = inr VUndefined.
Proof.
  apply (proj2 (generateWithFallbackB_total (offlineB (1 # 2)) (str "prompt")
                  []) (Error (str "No GEMINI key"))
           (Error (str "No GROQ key"))); reflexivity.
Defined.

(** X11. In the second variant the attempts are made in order and each
    failure is warned once, with its message: after a failure of
    Gemini, Groq is called; when Groq fails too, the entry drawn from
    the list is warned and returned. *)
Theorem generateWithFallbackB_warnings (E : VariantB.env)
  (prompt : js_string) (localFallback : list js_string) (e1 : error)
  (Hgemini : outcome (VariantB.generateGemini E prompt) = inl e1) :
  (forall t,
      outcome (VariantB.generateGroq E prompt) = inr t ->
      VariantB.generateWithFallback E prompt localFallback
      = (inr (VString t),
         [Call Gemini prompt; WarnFailed Gemini (message e1);
          Call Groq prompt]))
  /\ (forall e2,
        outcome (VariantB.generateGroq E prompt) = inl e2 ->
        VariantB.generateWithFallback E prompt localFallback
        = (inr (VariantB.random_entry (VariantB.Math_random E) localFallback),
           [Call Gemini prompt; WarnFailed Gemini (message e1);
            Call Groq prompt; WarnFailed Groq (message e2);
            WarnLocal (VariantB.random_entry (VariantB.Math_random E)
                         localFallback)])).
Proof.
  pose proof (traceB_generateGemini E prompt) as Ht1.
  pose proof (traceB_generateGroq E prompt) as Ht2.
  unfold VariantB.generateWithFallback.
  destruct (VariantB.generateGemini E prompt) as [[e|a] t1];
    simpl in Hgemini, Ht1; [|discriminate]. inversion Hgemini; subst.
  destruct (VariantB.generateGroq E prompt) as [[e|b] t2]; simpl in Ht2;
    subst; split; intros x Hx; simpl in Hx; inversion Hx; subst; reflexivity.
Qed.

Lemma generateWithFallbackB_warnings_witness :
  trace (VariantB.generateWithFallback (offlineB (1 # 2)) (str "prompt")
           [str "X"])
  = [Call Gemini (str "prompt"); WarnFailed Gemini (str "No GEMINI key");
     Call Groq (str "prompt"); WarnFailed Groq (str "No GROQ key");
     WarnLocal (VString (str "X"))].
Proof.
  rewrite (proj2 (generateWithFallbackB_warnings (offlineB (1 # 2))
                    (str "prompt") [str "X"] (Error (str "No GEMINI key"))
                    eq_refl) (Error (str "No GROQ key")) eq_refl).
  reflexivity.
Defined.

(* ================================================================== *)
(** * More on the category *)

(** The category of a date is never [undefined]. *)
Lemma category_some (today : Date) : exists c, category today = Some c.
Proof.
  unfold category. pose proof (getDay_lt today) as Hlt.
  destruct (getDay today) as [|[|[|[|[|[|[|r]]]]]]]; [..|lia]; eexists;
    reflexivity.
Qed.

(** X12. For every date the category is defined and is an entry of the
    rotation; it is the same a week later; and it has its own colour in
    [categoryColors], without reserved characters, so that the accent
    of the news badge is that colour and never the default of the
    [||]. *)
Theorem category_defined (today : Date) :
  exists c colour,
    category today = Some c /\ In c CATEGORY_ROTATION
    /\ category (addDays today 7) = Some c
    /\ property ScriptA.categoryColors c = Some colour
    /\ ScriptA.accent_of (VString c) = colour
    /\ reserved_free colour.
Proof.
  unfold category. rewrite getDay_addDays.
  pose proof (getDay_lt today) as Hlt.
  destruct (getDay today) as [|[|[|[|[|[|[|r]]]]]]]; [..|lia];
    eexists; eexists; (split; [reflexivity|]);
    (split; [simpl; tauto|]); (split; [reflexivity|]);
    (split; [reflexivity|]); (split; [reflexivity|]);
    repeat split.
Qed.

(* ================================================================== *)
(** * Runs of the first script *)

Lemma world_eta (w : world) :
  {| files := files w; console := console w ++ [] |} = w.
Proof. destruct w. simpl. now rewrite app_nil_r. Qed.

Lemma trace_requestHeadline (E : VariantA.env) (C : ScriptA.clock) :
  trace (ScriptA.requestHeadline E C) = [].
Proof.
  unfold ScriptA.requestHeadline, VariantA.fetchGNews, VariantA.fetchNewsAPI,
    bind, await, throw, ret.
  destruct (ScriptA.useGNews C).
  - destruct (VariantA.NEWS_API_KEY_2 E); [|reflexivity]. cbn [negb].
    now destruct (VariantA.gnews_fetch E _).
  - destruct (VariantA.NEWS_API_KEY E); [|reflexivity]. cbn [negb].
    now destruct (VariantA.newsapi_fetch E _).
Qed.

(** The headline step: the headline, or the error printed and the
    process ended with status 1. *)
Lemma fetchHeadline_run (E : VariantA.env) (C : ScriptA.clock) (w : world) :
  ScriptA.fetchHeadline E C w
  = match outcome (ScriptA.requestHeadline E C) with
    | inl e =>
        (inl (Exited 1),
         {| files := files w;
            console := console w
                       ++ [ConsoleError (str "News fetch error:") (Some e)] |})
    | inr h => (inr h, w)
    end.
Proof.
  unfold ScriptA.fetchHeadline, io_try_catch, io_lift, io_bind, print, io_exit.
  rewrite trace_requestHeadline. simpl map. rewrite world_eta.
  now destruct (outcome (ScriptA.requestHeadline E C)).
Qed.

Lemma generateWithFallbackA_outcome (E : VariantA.env) (prompt : js_string) :
  outcome (VariantA.generateWithFallback E prompt)
  = match outcome (VariantA.generateGroq E prompt) with
    | inr a => inr a
    | inl e =>
        if VariantA.geminiAI E then outcome (VariantA.generateGemini E prompt)
        else inl e
    end.
Proof.
  unfold VariantA.generateWithFallback.
  destruct (VariantA.generateGroq E prompt) as [[e|a] t]; [|reflexivity].
  simpl. destruct (VariantA.geminiAI E); [|reflexivity].
  now destruct (VariantA.generateGemini E prompt).
Qed.

(** A text returned by the orchestrator of the first variant is not
    empty and has no line break. *)
Lemma generateWithFallbackA_text (E : VariantA.env) (prompt t : js_string) :
  outcome (VariantA.generateWithFallback E prompt) = inr t ->
  truthy t = true /\ occ LF t = 0.
Proof.
  rewrite generateWithFallbackA_outcome.
  destruct (provider_texts prompt t) as (Hgroq & Hgemini & _).
  destruct (outcome (VariantA.generateGroq E prompt)) as [e|a] eqn:Hg.
  - destruct (VariantA.geminiAI E); [|discriminate].
    intros H. now apply (Hgemini E) in H.
  - intros H. rewrite <- H in *. now apply (Hgroq E).
Qed.

(** The script stops at the key check exactly when no key is set. *)
Lemma scriptA_run (E : VariantA.env) (C : ScriptA.clock) (w : world) :
  ScriptA.script E C w
  = if negb (VariantA.groq E) && negb (VariantA.geminiAI E)
       && negb (VariantA.NEWS_API_KEY E) && negb (VariantA.NEWS_API_KEY_2 E)
    then (inl (Exited 1),
          {| files := files w;
             console := console w
                        ++ [ConsoleError (str " Missing API keys") None] |})
    else match ScriptA.main E C w with
         | (inl (Thrown err), w') =>
             (inl (Exited 1),
              {| files := files w';
                 console := console w' ++ [ConsoleError [] (Some err)] |})
         | r => r
         end.
Proof.
  unfold ScriptA.script.
  destruct (negb (VariantA.groq E) && negb (VariantA.geminiAI E)
            && negb (VariantA.NEWS_API_KEY E)
            && negb (VariantA.NEWS_API_KEY_2 E)); [reflexivity|].
  unfold io_try_catch, io_bind, print, io_exit.
  now destruct (ScriptA.main E C w) as [[[e|c]|[]] w'].
Qed.

Lemma mainA_fetch_fails (E : VariantA.env) (C : ScriptA.clock) (w : world)
  (e : error) :
  outcome (ScriptA.requestHeadline E C) = inl e ->
  ScriptA.main E C w
  = (inl (Exited 1),
     {| files := files w;
        console := console w
                   ++ [ConsoleError (str "News fetch error:") (Some e)] |}).
Proof.
  intros He. unfold ScriptA.main. unfold io_bind at 1.
  now rewrite fetchHeadline_run, He.
Qed.

(** X13. A run of the first script that finds no key, whose headline
    request throws, or one of whose two generations throws, ends with
    status 1 and leaves every file as it was; when the headline request
    throws, no provider is called: one error line is all the run
    prints. *)
Theorem scriptA_early_failure (E : VariantA.env) (C : ScriptA.clock)
  (w : world) :
  (forall e,
      outcome (ScriptA.requestHeadline E C) = inl e ->
      exit_code (ScriptA.script E C w) = 1
      /\ files (snd (ScriptA.script E C w)) = files w
      /\ exists text err,
           console (snd (ScriptA.script E C w))
           = console w ++ [ConsoleError text err])
  /\ (forall h e,
        outcome (ScriptA.requestHeadline E C) = inr h ->
        outcome (VariantA.generateWithFallback E ScriptA.jokePrompt) = inl e
        \/ outcome (VariantA.generateWithFallback E (ScriptA.reactionPrompt h))
           = inl e ->
        exit_code (ScriptA.script E C w) = 1
        /\ files (snd (ScriptA.script E C w)) = files w)
  /\ (VariantA.groq E = false -> VariantA.geminiAI E = false ->
      exit_code (ScriptA.script E C w) = 1
      /\ files (snd (ScriptA.script E C w)) = files w).
Proof.
  assert (forall h e,
    outcome (ScriptA.requestHeadline E C) = inr h ->
    outcome (VariantA.generateWithFallback E ScriptA.jokePrompt) = inl e
    \/ outcome (VariantA.generateWithFallback E (ScriptA.reactionPrompt h))
       = inl e ->
    exists err w', ScriptA.main E C w = (inl (Thrown err), w')
                   /\ files w' = files w) as Hgen.
  { intros h e Hh Hfail. unfold ScriptA.main.
    unfold io_bind at 1. rewrite fetchHeadline_run, Hh.
    unfold io_bind at 1. unfold io_lift at 1.
    destruct (outcome (VariantA.generateWithFallback E ScriptA.jokePrompt))
      as [ej|joke]; [eexists; eexists; split; reflexivity|].
    unfold io_bind at 1. unfold io_lift at 1.
    destruct Hfail as [Hf|Hf]; [discriminate|]. rewrite Hf.
    eexists; eexists; split; reflexivity. }
  split; [|split].
  - intros e He. rewrite scriptA_run.
    destruct (negb (VariantA.groq E) && negb (VariantA.geminiAI E)
              && negb (VariantA.NEWS_API_KEY E)
              && negb (VariantA.NEWS_API_KEY_2 E)).
    + repeat split. now eexists; eexists.
    + rewrite (mainA_fetch_fails E C w e He). repeat split.
      now eexists; eexists.
  - intros h e Hh Hfail. rewrite scriptA_run.
    destruct (Hgen h e Hh Hfail) as (err & w' & Hm & Hw). rewrite Hm.
    destruct (negb (VariantA.groq E) && negb (VariantA.geminiAI E)
              && negb (VariantA.NEWS_API_KEY E)
              && negb (VariantA.NEWS_API_KEY_2 E)); split; auto.
  - intros Hk1 Hk2.
    destruct (outcome (ScriptA.requestHeadline E C)) as [e|h] eqn:Hh.
    + rewrite scriptA_run.
      destruct (negb (VariantA.groq E) && negb (VariantA.geminiAI E)
                && negb (VariantA.NEWS_API_KEY E)
                && negb (VariantA.NEWS_API_KEY_2 E)); [now split|].
      rewrite (mainA_fetch_fails E C w e Hh). now split.
    + assert (outcome (VariantA.generateWithFallback E ScriptA.jokePrompt)
              = inl (Error (str "No GROQ key"))) as Hj.
      { rewrite generateWithFallbackA_outcome, Hk2.
        unfold VariantA.generateGroq, bind, emit, throw. now rewrite Hk1. }
      rewrite scriptA_run.
      destruct (Hgen h _ eq_refl (or_introl Hj)) as (err & w' & Hm & Hw).
      rewrite Hm.
      destruct (negb (VariantA.groq E) && negb (VariantA.geminiAI E)
                && negb (VariantA.NEWS_API_KEY E)
                && negb (VariantA.NEWS_API_KEY_2 E)); split; auto.
Qed.

Ltac run_io :=
  cbv beta iota zeta
      delta [io_bind io_lift io_appendFile io_writeFile io_getLastLine print
             io_ret io_throw ScriptA.writeSvg VariantA.writeSvg
             ScriptB.writeSvg VariantB.writeSvg fw_name fw_data
             files console fst snd].

(** The files at the end of [main] of the first script, once the
    headline request and the two generations have returned. *)
Lemma mainA_run (E : VariantA.env) (C : ScriptA.clock) (w : world)
  (h : value) (joke reaction c : js_string) :
  outcome (ScriptA.requestHeadline E C) = inr h ->
  outcome (VariantA.generateWithFallback E ScriptA.jokePrompt) = inr joke ->
  outcome (VariantA.generateWithFallback E (ScriptA.reactionPrompt h))
  = inr reaction ->
  category (ScriptA.today C) = Some c ->
  let d := ScriptA.dateStr C in
  let fs1 := appendFileSync (files w) (str "jokes.txt")
               (str "[" ++ d ++ str "] " ++ joke ++ [LF]) in
  let fs2 := appendFileSync fs1 (str "news.txt")
               (str "[" ++ d ++ str "] [" ++ toUpperCase c ++ str "] "
                ++ show h ++ [LF]) in
  let fs3 := writeFileSync fs2 (str "reaction.txt") reaction in
  let fs4 := writeFileSync fs3 (str "joke.svg")
               (svgDocument 70 (str "Daily Joke")
                  (getLastLine fs3 (str "jokes.txt")) (str "#3fb950") d) in
  match h with
  | VString hs =>
      fst (ScriptA.main E C w) = inr tt
      /\ files (snd (ScriptA.main E C w))
         = writeFileSync fs4 (str "news.svg")
             (svgDocument 70 (str "Daily News") hs
                (ScriptA.accent_of (VString c)) d)
  | VUndefined =>
      fst (ScriptA.main E C w) = inl (Thrown TypeError_split)
      /\ files (snd (ScriptA.main E C w)) = fs4
  end.
Proof.
  intros Hh Hj Hr Hc d fs1 fs2 fs3 fs4.
  assert (ScriptA.category_value C = VString c) as Hcv
    by (unfold ScriptA.category_value; now rewrite Hc).
  destruct h as [hs|].
  - assert (exists out,
      ScriptA.main E C w
      = (inr tt,
         {| files := writeFileSync fs4 (str "news.svg")
                       (svgDocument 70 (str "Daily News") hs
                          (ScriptA.accent_of (VString c)) d);
            console := out |})) as [out Hm].
    { eexists. unfold ScriptA.main. unfold io_bind at 1.
      rewrite fetchHeadline_run, Hh. run_io. rewrite Hj, Hr, Hcv. run_io.
      reflexivity. }
    rewrite Hm. now split.
  - assert (exists out,
      ScriptA.main E C w
      = (inl (Thrown TypeError_split), {| files := fs4; console := out |}))
      as [out Hm].
    { eexists. unfold ScriptA.main. unfold io_bind at 1.
      rewrite fetchHeadline_run, Hh. run_io. rewrite Hj, Hr, Hcv. run_io.
      reflexivity. }
    rewrite Hm. now split.
Qed.

Lemma scriptA_early_failure_witness :
  exit_code (ScriptA.script sampleA_news_only sample_clockA fresh_world) = 1
  /\ files (snd (ScriptA.script sampleA_news_only sample_clockA fresh_world))
     = files fresh_world.
Proof.
  apply (scriptA_early_failure sampleA_news_only sample_clockA fresh_world);
    reflexivity.
Defined.

Lemma getLastLine_ext (fs fs' : list (js_string * js_string))
  (file : js_string) :
  readFile fs file = readFile fs' file ->
  getLastLine fs file = getLastLine fs' file.
Proof. intros H. unfold getLastLine, existsSync. now rewrite H. Qed.

Lemma request_needs_key (E : VariantA.env) (C : ScriptA.clock) (h : value) :
  outcome (ScriptA.requestHeadline E C) = inr h ->
  negb (VariantA.groq E) && negb (VariantA.geminiAI E)
  && negb (VariantA.NEWS_API_KEY E) && negb (VariantA.NEWS_API_KEY_2 E)
  = false.
Proof.
  unfold ScriptA.requestHeadline, VariantA.fetchGNews, VariantA.fetchNewsAPI,
    bind, await, throw, ret, outcome.
  destruct (ScriptA.useGNews C).
  - destruct (VariantA.NEWS_API_KEY_2 E); [|discriminate].
    intros _. now rewrite !andb_false_r.
  - destruct (VariantA.NEWS_API_KEY E); [|discriminate].
    intros _. now rewrite andb_false_r.
Qed.

(** Past the key check, the script ends as [main] ends, an exception of
    [main] giving status 1, with the files that [main] leaves. *)
Lemma scriptA_of_main (E : VariantA.env) (C : ScriptA.clock) (w : world) :
  negb (VariantA.groq E) && negb (VariantA.geminiAI E)
  && negb (VariantA.NEWS_API_KEY E) && negb (VariantA.NEWS_API_KEY_2 E)
  = false ->
  exit_code (ScriptA.script E C w) = exit_code (ScriptA.main E C w)
  /\ files (snd (ScriptA.script E C w)) = files (snd (ScriptA.main E C w)).
Proof.
  intros Hk. rewrite scriptA_run, Hk.
  now destruct (ScriptA.main E C w) as [[[e|c]|[]] w'].
Qed.

Ltac distinct_names :=
  let H := fresh in intros H; vm_compute in H; discriminate H.

Ltac read_files :=
  repeat first
    [ rewrite readFile_write_same
    | rewrite readFile_append_same
    | rewrite readFile_write_other by distinct_names
    | rewrite readFile_append_other by distinct_names ].

(** X14. A run of the first script in which the headline is a string
    and both generations return ends with status 0.  It has appended
    one line to each log after what the log held, written the
    reaction and the news badge of the headline in the colour of the
    category, and changed no file besides the five it writes. *)
Theorem scriptA_success (E : VariantA.env) (C : ScriptA.clock) (w : world)
  (hs joke reaction : js_string)
  (Hh : outcome (ScriptA.requestHeadline E C) = inr (VString hs))
  (Hj : outcome (VariantA.generateWithFallback E ScriptA.jokePrompt)
        = inr joke)
  (Hr : outcome (VariantA.generateWithFallback E
                   (ScriptA.reactionPrompt (VString hs))) = inr reaction) :
  let after := files (snd (ScriptA.script E C w)) in
  let d := ScriptA.dateStr C in
  exit_code (ScriptA.script E C w) = 0
  /\ exists c,
       category (ScriptA.today C) = Some c
       /\ readFile after (str "jokes.txt")
          = Some (content_of (files w) (str "jokes.txt")
                  ++ str "[" ++ d ++ str "] " ++ joke ++ [LF])
       /\ readFile after (str "news.txt")
          = Some (content_of (files w) (str "news.txt")
                  ++ str "[" ++ d ++ str "] [" ++ toUpperCase c ++ str "] "
                  ++ hs ++ [LF])
       /\ readFile after (str "reaction.txt") = Some reaction
       /\ readFile after (str "news.svg")
          = Some (svgDocument 70 (str "Daily News") hs
                    (ScriptA.accent_of (VString c)) d)
       /\ forall other,
            ~ In other [str "jokes.txt"; str "news.txt"; str "reaction.txt";
                        str "joke.svg"; str "news.svg"] ->
            readFile after other = readFile (files w) other.
Proof.
  intros after d. subst after.
  destruct (category_some (ScriptA.today C)) as [c Hc].
  destruct (scriptA_of_main E C w (request_needs_key E C _ Hh)) as [Hx Hf].
  destruct (mainA_run E C w _ joke reaction c Hh Hj Hr Hc) as [Hm Hfs].
  rewrite Hx, Hf, Hfs. split.
  - unfold exit_code. now rewrite Hm.
  - exists c. split; [exact Hc|]. fold d. unfold content_of.
    repeat split; read_files; try reflexivity.
    intros other Hother. simpl in Hother.
    rewrite !readFile_write_other, !readFile_append_other by intuition.
    reflexivity.
Qed.

Lemma scriptA_success_witness :
  exit_code (ScriptA.script (sampleA_news (str "A joke.") (str "Big news"))
               sample_clockA fresh_world) = 0.
Proof.
  apply (scriptA_success (sampleA_news (str "A joke.") (str "Big news"))
           sample_clockA fresh_world (str "Big news") (str "A joke.")
           (str "A joke.")); reflexivity.
Defined.

(** X15. When the headline request and both generations return, the
    joke badge that the first script writes shows the line it has just
    appended to jokes.txt, without trailing white space, provided the
    log was missing, empty or ended by a line break and the date stamp
    has no line break; this whether or not the headline is defined. *)
Theorem scriptA_joke_badge (E : VariantA.env) (C : ScriptA.clock) (w : world)
  (h : value) (joke reaction : js_string)
  (Hh : outcome (ScriptA.requestHeadline E C) = inr h)
  (Hj : outcome (VariantA.generateWithFallback E ScriptA.jokePrompt)
        = inr joke)
  (Hr : outcome (VariantA.generateWithFallback E (ScriptA.reactionPrompt h))
        = inr reaction)
  (Hlog : terminated (content_of (files w) (str "jokes.txt")))
  (Hdate : occ LF (ScriptA.dateStr C) = 0) :
  readFile (files (snd (ScriptA.script E C w))) (str "joke.svg")
  = Some (svgDocument 70 (str "Daily Joke")
            (trimEnd (str "[" ++ ScriptA.dateStr C ++ str "] " ++ joke))
            (str "#3fb950") (ScriptA.dateStr C)).
Proof.
  destruct (category_some (ScriptA.today C)) as [c Hc].
  destruct (scriptA_of_main E C w (request_needs_key E C _ Hh)) as [_ Hf].
  pose proof (mainA_run E C w h joke reaction c Hh Hj Hr Hc) as Hm.
  cbv zeta in Hm. rewrite Hf.
  destruct (generateWithFallbackA_text E _ joke Hj) as [_ Hjoke].
  assert (forall fs,
    readFile fs (str "jokes.txt")
    = readFile (appendFileSync (files w) (str "jokes.txt")
                  ((str "[" ++ ScriptA.dateStr C ++ str "] " ++ joke) ++ [LF]))
        (str "jokes.txt") ->
    getLastLine fs (str "jokes.txt")
    = trimEnd (str "[" ++ ScriptA.dateStr C ++ str "] " ++ joke)) as Hlast.
  { intros fs Hfs. rewrite (getLastLine_ext _ _ _ Hfs).
    apply appended_line_is_last; [assumption| |reflexivity].
    rewrite !occ_app, Hdate, Hjoke. reflexivity. }
  rewrite <- !app_assoc in Hlast.
  destruct h as [hs|]; destruct Hm as [_ Hfs]; rewrite Hfs; read_files;
    (rewrite Hlast; [reflexivity|]); read_files; reflexivity.
Qed.

Lemma scriptA_joke_badge_witness :
  readFile
    (files (snd (ScriptA.script (sampleA_news (str "A joke. ") (str "Big news"))
                   sample_clockA fresh_world))) (str "joke.svg")
  = Some (svgDocument 70 (str "Daily Joke") (str "[1970-01-04] A joke.")
            (str "#3fb950") (str "1970-01-04")).
Proof.
  apply (scriptA_joke_badge (sampleA_news (str "A joke. ") (str "Big news"))
           sample_clockA fresh_world (VString (str "Big news"))
           (str "A joke. ") (str "A joke. ")); try reflexivity.
  now left.
Defined.

(** X16. When the headline comes back [undefined] (a response without
    articles) and both generations return, the first script still
    appends to both logs, the news log receiving the word "undefined"
    as headline, and writes the reaction; it then fails in [writeSvg]
    for the news badge: the status is 1 and news.svg is left as it
    was. *)
Theorem scriptA_undefined_headline (E : VariantA.env) (C : ScriptA.clock)
  (w : world) (joke reaction : js_string)
  (Hh : outcome (ScriptA.requestHeadline E C) = inr VUndefined)
  (Hj : outcome (VariantA.generateWithFallback E ScriptA.jokePrompt)
        = inr joke)
  (Hr : outcome (VariantA.generateWithFallback E
                   (ScriptA.reactionPrompt VUndefined)) = inr reaction) :
  let after := files (snd (ScriptA.script E C w)) in
  let d := ScriptA.dateStr C in
  exit_code (ScriptA.script E C w) = 1
  /\ exists c,
       category (ScriptA.today C) = Some c
       /\ readFile after (str "jokes.txt")
          = Some (content_of (files w) (str "jokes.txt")
                  ++ str "[" ++ d ++ str "] " ++ joke ++ [LF])
       /\ readFile after (str "news.txt")
          = Some (content_of (files w) (str "news.txt")
                  ++ str "[" ++ d ++ str "] [" ++ toUpperCase c ++ str "] "
                  ++ str "undefined" ++ [LF])
       /\ readFile after (str "reaction.txt") = Some reaction
       /\ readFile after (str "news.svg") = readFile (files w) (str "news.svg").
Proof.
  intros after d. subst after.
  destruct (category_some (ScriptA.today C)) as [c Hc].
  destruct (scriptA_of_main E C w (request_needs_key E C _ Hh)) as [Hx Hf].
  destruct (mainA_run E C w _ joke reaction c Hh Hj Hr Hc) as [Hm Hfs].
  rewrite Hx, Hf, Hfs. split.
  - unfold exit_code. now rewrite Hm.
  - exists c. split; [exact Hc|]. fold d. unfold content_of.
    repeat split; read_files; reflexivity.
Qed.

Lemma scriptA_undefined_headline_witness :
  exit_code (ScriptA.script (sampleA (str "A joke.") (str "B")) sample_clockA
               fresh_world) = 1.
Proof.
  apply (scriptA_undefined_headline (sampleA (str "A joke.") (str "B"))
           sample_clockA fresh_world (str "A joke.") (str "A joke."));
    reflexivity.
Defined.

(* ================================================================== *)
(** * Runs of the second script *)

(** [main] of the second script always runs to its end; its files. *)
Lemma mainB_run (E : VariantB.env) (C : ScriptB.clock) (r_news : Q)
  (w : world) :
  exists joke news out,
    outcome (VariantB.generateWithFallback E ScriptB.jokePrompt
               ScriptB.jokeFallbacks) = inr joke
    /\ outcome (VariantB.generateWithFallback (ScriptB.next_draw E r_news)
                  (ScriptB.newsPrompt (ScriptB.yesterdayStr C))
                  ScriptB.newsFallbacks) = inr news
    /\ let d := ScriptB.dateStr C in
       let fs1 := appendFileSync (files w) (str "jokes.txt")
                    (str "[" ++ d ++ str "] " ++ show joke ++ [LF]) in
       let fs2 := appendFileSync fs1 (str "news.txt")
                    (str "[" ++ d ++ str "] " ++ show news ++ [LF]) in
       let fs3 := writeFileSync fs2 (str "joke.svg")
                    (svgDocument 60 (str "Daily Joke")
                       (getLastLine fs2 (str "jokes.txt")) (str "#3fb950") d) in
       ScriptB.main E C r_news w
       = (inr tt,
          {| files := writeFileSync fs3 (str "news.svg")
                        (svgDocument 60 (str "Daily Tech News")
                           (getLastLine fs3 (str "news.txt"))
                           (str "#58a6ff") d);
             console := out |}).
Proof.
  destruct (generateWithFallbackB_returns E ScriptB.jokePrompt
              ScriptB.jokeFallbacks) as [joke Hj].
  destruct (generateWithFallbackB_returns (ScriptB.next_draw E r_news)
              (ScriptB.newsPrompt (ScriptB.yesterdayStr C))
              ScriptB.newsFallbacks) as [news Hn].
  exists joke, news. eexists. split; [exact Hj|]. split; [exact Hn|].
  unfold ScriptB.main. run_io. rewrite Hj, Hn. run_io. reflexivity.
Qed.

Lemma scriptB_run (E : VariantB.env) (C : ScriptB.clock) (r_news : Q)
  (w : world) :
  ScriptB.script E C r_news w
  = if negb (VariantB.geminiAI E) && negb (VariantB.GROQ_API_KEY E)
    then (inl (Exited 1),
          {| files := files w;
             console :=
               console w
               ++ [ConsoleError (str "Missing GEMINI_API_KEY and GROQ_API_KEY")
                     None] |})
    else ScriptB.main E C r_news w.
Proof.
  unfold ScriptB.script.
  destruct (negb (VariantB.geminiAI E) && negb (VariantB.GROQ_API_KEY E));
    [reflexivity|].
  destruct (mainB_run E C r_news w) as (joke & news & out & _ & _ & Hm).
  cbv zeta in Hm. unfold io_try_catch. now rewrite Hm.
Qed.

(** With a key the second script runs to its end. *)
Lemma scriptB_with_key (E : VariantB.env) (C : ScriptB.clock)
  (r_news : Q) (w : world) :
  VariantB.geminiAI E = true \/ VariantB.GROQ_API_KEY E = true ->
  let after := files (snd (ScriptB.script E C r_news w)) in
  let d := ScriptB.dateStr C in
  exit_code (ScriptB.script E C r_news w) = 0
  /\ exists joke news,
       outcome (VariantB.generateWithFallback E ScriptB.jokePrompt
                  ScriptB.jokeFallbacks) = inr joke
       /\ outcome (VariantB.generateWithFallback
                     (ScriptB.next_draw E r_news)
                     (ScriptB.newsPrompt (ScriptB.yesterdayStr C))
                     ScriptB.newsFallbacks) = inr news
       /\ readFile after (str "jokes.txt")
          = Some (content_of (files w) (str "jokes.txt")
                  ++ str "[" ++ d ++ str "] " ++ show joke ++ [LF])
       /\ readFile after (str "news.txt")
          = Some (content_of (files w) (str "news.txt")
                  ++ str "[" ++ d ++ str "] " ++ show news ++ [LF])
       /\ forall other,
            ~ In other [str "jokes.txt"; str "news.txt"; str "joke.svg";
                        str "news.svg"] ->
            readFile after other = readFile (files w) other.
Proof.
  intros Hkey after d. subst after. rewrite scriptB_run.
  assert (negb (VariantB.geminiAI E) && negb (VariantB.GROQ_API_KEY E)
          = false) as Hk
    by (destruct Hkey as [-> | ->]; [reflexivity|apply andb_false_r]).
  rewrite Hk.
  destruct (mainB_run E C r_news w) as (joke & news & out & Hj & Hn & Hm).
  cbv zeta in Hm. rewrite Hm. split; [reflexivity|].
  exists joke, news. split; [exact Hj|]. split; [exact Hn|].
  fold d. unfold content_of. cbn [snd files].
  repeat split; read_files; try reflexivity.
  intros other Hother. simpl in Hother.
  rewrite !readFile_write_other, !readFile_append_other by intuition.
  reflexivity.
Qed.

(** X17. The second script ends with status 1, all files untouched,
    exactly when neither key is set.  With a key it always ends with
    status 0, whatever the providers answer: it has appended to each
    log, after what the log held, one line with the value that
    [generateWithFallback] returned, and has changed no file besides
    the two logs and the two badges. *)
Theorem scriptB_always_completes (E : VariantB.env) (C : ScriptB.clock)
  (r_news : Q) (w : world) :
  let after := files (snd (ScriptB.script E C r_news w)) in
  let d := ScriptB.dateStr C in
  (VariantB.geminiAI E = false -> VariantB.GROQ_API_KEY E = false ->
   exit_code (ScriptB.script E C r_news w) = 1 /\ after = files w)
  /\ (VariantB.geminiAI E = true \/ VariantB.GROQ_API_KEY E = true ->
      exit_code (ScriptB.script E C r_news w) = 0
      /\ exists joke news,
           outcome (VariantB.generateWithFallback E ScriptB.jokePrompt
                      ScriptB.jokeFallbacks) = inr joke
           /\ outcome (VariantB.generateWithFallback
                         (ScriptB.next_draw E r_news)
                         (ScriptB.newsPrompt (ScriptB.yesterdayStr C))
                         ScriptB.newsFallbacks) = inr news
           /\ readFile after (str "jokes.txt")
              = Some (content_of (files w) (str "jokes.txt")
                      ++ str "[" ++ d ++ str "] " ++ show joke ++ [LF])
           /\ readFile after (str "news.txt")
              = Some (content_of (files w) (str "news.txt")
                      ++ str "[" ++ d ++ str "] " ++ show news ++ [LF])
           /\ forall other,
                ~ In other [str "jokes.txt"; str "news.txt"; str "joke.svg";
                            str "news.svg"] ->
                readFile after other = readFile (files w) other).
Proof.
  intros after d. subst after. split.
  - intros Hg Hq. rewrite scriptB_run, Hg, Hq. now split.
  - intros Hkey. now apply scriptB_with_key.
Qed.

Lemma scriptB_always_completes_witness :
  exit_code (ScriptB.script (sampleB (str "A joke.") 0) sample_clockB 0
               fresh_world) = 0.
Proof.
  apply (scriptB_always_completes (sampleB (str "A joke.") 0) sample_clockB 0
           fresh_world). now left.
Defined.

(** A value returned by the orchestrator of the second variant prints
    without line break, when the entries of the list have none. *)
Lemma generateWithFallbackB_value_line (E : VariantB.env)
  (prompt : js_string) (localFallback : list js_string) (v : value) :
  Forall (fun s => occ LF s = 0) localFallback ->
  outcome (VariantB.generateWithFallback E prompt localFallback) = inr v ->
  occ LF (show v) = 0.
Proof.
  intros Hlf. rewrite generateWithFallbackB_outcome.
  destruct (outcome (VariantB.generateGemini E prompt)) as [e1|a] eqn:Ha.
  - destruct (outcome (VariantB.generateGroq E prompt)) as [e2|b] eqn:Hb.
    + intros [= <-]. unfold VariantB.random_entry.
      destruct (_ <? 0)%Z; [reflexivity|].
      destruct (nth_error localFallback _) as [s|] eqn:Hs; [|reflexivity].
      apply nth_error_In in Hs. rewrite Forall_forall in Hlf. now apply Hlf.
    + intros [= <-].
      destruct (provider_texts prompt b) as (_ & _ & _ & Hgroq).
      now apply (Hgroq E).
  - intros [= <-].
    destruct (provider_texts prompt a) as (_ & _ & Hgemini & _).
    now apply (Hgemini E).
Qed.

(** X18. Two runs of the second script, each with a key and a date
    stamp without line break, add exactly two lines to jokes.txt and to
    news.txt and overwrite nothing: each log holds what it held before,
    then the line of the first run, then the line of the second, each
    ended by one line break; a line is the date stamp and the value
    that [generateWithFallback] returned in that run, and holds no line
    break, so that the log has two line breaks more than before. *)
Theorem scriptB_two_runs (E1 E2 : VariantB.env) (C1 C2 : ScriptB.clock)
  (r1 r2 : Q) (w : world)
  (Hkey1 : VariantB.geminiAI E1 = true \/ VariantB.GROQ_API_KEY E1 = true)
  (Hkey2 : VariantB.geminiAI E2 = true \/ VariantB.GROQ_API_KEY E2 = true)
  (Hdate1 : occ LF (ScriptB.dateStr C1) = 0)
  (Hdate2 : occ LF (ScriptB.dateStr C2) = 0) :
  let w1 := snd (ScriptB.script E1 C1 r1 w) in
  let after := files (snd (ScriptB.script E2 C2 r2 w1)) in
  exists joke1 news1 joke2 news2,
    outcome (VariantB.generateWithFallback E1 ScriptB.jokePrompt
               ScriptB.jokeFallbacks) = inr joke1
    /\ outcome (VariantB.generateWithFallback (ScriptB.next_draw E1 r1)
                  (ScriptB.newsPrompt (ScriptB.yesterdayStr C1))
                  ScriptB.newsFallbacks) = inr news1
    /\ outcome (VariantB.generateWithFallback E2 ScriptB.jokePrompt
                  ScriptB.jokeFallbacks) = inr joke2
    /\ outcome (VariantB.generateWithFallback (ScriptB.next_draw E2 r2)
                  (ScriptB.newsPrompt (ScriptB.yesterdayStr C2))
                  ScriptB.newsFallbacks) = inr news2
    /\ (readFile after (str "jokes.txt")
        = Some (content_of (files w) (str "jokes.txt")
                ++ (log_line (ScriptB.dateStr C1) joke1 ++ [LF])
                ++ (log_line (ScriptB.dateStr C2) joke2 ++ [LF]))
        /\ occ LF (log_line (ScriptB.dateStr C1) joke1) = 0
        /\ occ LF (log_line (ScriptB.dateStr C2) joke2) = 0
        /\ occ LF (content_of after (str "jokes.txt"))
           = occ LF (content_of (files w) (str "jokes.txt")) + 2)
    /\ (readFile after (str "news.txt")
        = Some (content_of (files w) (str "news.txt")
                ++ (log_line (ScriptB.dateStr C1) news1 ++ [LF])
                ++ (log_line (ScriptB.dateStr C2) news2 ++ [LF]))
        /\ occ LF (log_line (ScriptB.dateStr C1) news1) = 0
        /\ occ LF (log_line (ScriptB.dateStr C2) news2) = 0
        /\ occ LF (content_of after (str "news.txt"))
           = occ LF (content_of (files w) (str "news.txt")) + 2).
Proof.
  intros w1 after. subst after.
  destruct (scriptB_with_key E1 C1 r1 w Hkey1)
    as (_ & joke1 & news1 & Ho1 & Ho1' & Hj1 & Hn1 & _).
  destruct (scriptB_with_key E2 C2 r2 w1 Hkey2)
    as (_ & joke2 & news2 & Ho2 & Ho2' & Hj2 & Hn2 & _).
  exists joke1, news1, joke2, news2.
  assert (forall d E prompt lf v,
    occ LF d = 0 -> Forall (fun s => occ LF s = 0) lf ->
    outcome (VariantB.generateWithFallback E prompt lf) = inr v ->
    occ LF (log_line d v) = 0) as Hline.
  { intros d E prompt lf v Hd Hlf Hv. unfold log_line.
    rewrite !occ_app, Hd,
      (generateWithFallbackB_value_line E prompt lf v Hlf Hv).
    reflexivity. }
  assert (Forall (fun s => occ LF s = 0) ScriptB.jokeFallbacks) as Hjf
    by (repeat constructor).
  assert (Forall (fun s => occ LF s = 0) ScriptB.newsFallbacks) as Hnf
    by (repeat constructor).
  pose proof (Hline _ _ _ _ _ Hdate1 Hjf Ho1) as L1.
  pose proof (Hline _ _ _ _ _ Hdate2 Hjf Ho2) as L2.
  pose proof (Hline _ _ _ _ _ Hdate1 Hnf Ho1') as L3.
  pose proof (Hline _ _ _ _ _ Hdate2 Hnf Ho2') as L4.
  assert (readFile (files (snd (ScriptB.script E2 C2 r2 w1))) (str "jokes.txt")
          = Some (content_of (files w) (str "jokes.txt")
                  ++ (log_line (ScriptB.dateStr C1) joke1 ++ [LF])
                  ++ (log_line (ScriptB.dateStr C2) joke2 ++ [LF]))) as Rj.
  { rewrite Hj2. unfold content_of at 1. subst w1. rewrite Hj1.
    unfold log_line. now rewrite <- !app_assoc. }
  assert (readFile (files (snd (ScriptB.script E2 C2 r2 w1))) (str "news.txt")
          = Some (content_of (files w) (str "news.txt")
                  ++ (log_line (ScriptB.dateStr C1) news1 ++ [LF])
                  ++ (log_line (ScriptB.dateStr C2) news2 ++ [LF]))) as Rn.
  { rewrite Hn2. unfold content_of at 1. subst w1. rewrite Hn1.
    unfold log_line. now rewrite <- !app_assoc. }
  repeat split; try assumption.
  - unfold content_of at 1. rewrite Rj, !occ_app, L1, L2. simpl. lia.
  - unfold content_of at 1. rewrite Rn, !occ_app, L3, L4. simpl. lia.
Qed.

Lemma scriptB_two_runs_witness :
  readFile
    (files (snd (ScriptB.script (sampleB (str "B joke.") 0) sample_clockB 0
                   (snd (ScriptB.script (sampleB (str "A joke.") 0)
                           sample_clockB 0 fresh_world)))))
    (str "jokes.txt")
  = Some (str "[1970-01-04] A joke." ++ [LF]
          ++ str "[1970-01-04] B joke." ++ [LF]).
Proof.
  destruct (scriptB_two_runs (sampleB (str "A joke.") 0)
              (sampleB (str "B joke.") 0) sample_clockB sample_clockB 0 0
              fresh_world (or_introl eq_refl) (or_introl eq_refl)
              eq_refl eq_refl)
    as (j1 & n1 & j2 & n2 & Hj1 & _ & Hj2 & _ & (Hlog & _) & _).
  rewrite Hlog. vm_compute in Hj1, Hj2.
  inversion Hj1. inversion Hj2. reflexivity.
Defined.

(** With a non-empty list of one-line entries and a draw in [0, 1), the
    orchestrator of the second variant returns a string without line
    break. *)
Lemma generateWithFallbackB_text (E : VariantB.env) (prompt : js_string)
  (localFallback : list js_string) :
  localFallback <> [] ->
  Forall (fun s => occ LF s = 0) localFallback ->
  (0 <= VariantB.Math_random E)%Q -> (VariantB.Math_random E < 1)%Q ->
  exists s,
    outcome (VariantB.generateWithFallback E prompt localFallback)
    = inr (VString s)
    /\ occ LF s = 0.
Proof.
  intros Hne Hlf Hlo Hhi. rewrite generateWithFallbackB_outcome.
  destruct (outcome (VariantB.generateGemini E prompt)) as [e1|a] eqn:Ha.
  - destruct (outcome (VariantB.generateGroq E prompt)) as [e2|b] eqn:Hb.
    + destruct (random_entry_in _ _ Hne Hlo Hhi) as (s & Hs & Hin).
      exists s. rewrite Hs. split; [reflexivity|].
      rewrite Forall_forall in Hlf. now apply Hlf.
    + exists b. split; [reflexivity|].
      destruct (provider_texts prompt b) as (_ & _ & _ & Hgroq).
      now apply (Hgroq E).
  - exists a. split; [reflexivity|].
    destruct (provider_texts prompt a) as (_ & _ & Hgemini & _).
    now apply (Hgemini E).
Qed.

(** X19. In a run of the second script with a key and with draws of
    [Math.random] in [0, 1), on logs that were missing, empty or ended
    by a line break and with a date stamp without line break, both
    generated values are strings and each badge shows the line just
    appended to its log, date prefix included, without trailing white
    space. *)
Theorem scriptB_badges (E : VariantB.env) (C : ScriptB.clock) (r_news : Q)
  (w : world)
  (Hkey : VariantB.geminiAI E = true \/ VariantB.GROQ_API_KEY E = true)
  (Hlo : (0 <= VariantB.Math_random E)%Q) (Hhi : (VariantB.Math_random E < 1)%Q)
  (Hlo' : (0 <= r_news)%Q) (Hhi' : (r_news < 1)%Q)
  (Hdate : occ LF (ScriptB.dateStr C) = 0)
  (Hjokes : terminated (content_of (files w) (str "jokes.txt")))
  (Hnews : terminated (content_of (files w) (str "news.txt"))) :
  let after := files (snd (ScriptB.script E C r_news w)) in
  let d := ScriptB.dateStr C in
  exists joke news,
    outcome (VariantB.generateWithFallback E ScriptB.jokePrompt
               ScriptB.jokeFallbacks) = inr (VString joke)
    /\ outcome (VariantB.generateWithFallback (ScriptB.next_draw E r_news)
                  (ScriptB.newsPrompt (ScriptB.yesterdayStr C))
                  ScriptB.newsFallbacks) = inr (VString news)
    /\ readFile after (str "joke.svg")
       = Some (svgDocument 60 (str "Daily Joke")
                 (trimEnd (str "[" ++ d ++ str "] " ++ joke))
                 (str "#3fb950") d)
    /\ readFile after (str "news.svg")
       = Some (svgDocument 60 (str "Daily Tech News")
                 (trimEnd (str "[" ++ d ++ str "] " ++ news))
                 (str "#58a6ff") d).
Proof.
  intros after d. subst after.
  destruct (generateWithFallbackB_text E ScriptB.jokePrompt
              ScriptB.jokeFallbacks) as (joke & Hj & Hjl);
    [discriminate|repeat constructor|assumption..|].
  destruct (generateWithFallbackB_text (ScriptB.next_draw E r_news)
              (ScriptB.newsPrompt (ScriptB.yesterdayStr C))
              ScriptB.newsFallbacks) as (news & Hn & Hnl);
    [discriminate|repeat constructor|assumption..|].
  exists joke, news. split; [exact Hj|]. split; [exact Hn|].
  assert (negb (VariantB.geminiAI E) && negb (VariantB.GROQ_API_KEY E)
          = false) as Hk
    by (destruct Hkey as [-> | ->]; [reflexivity|apply andb_false_r]).
  rewrite scriptB_run, Hk.
  destruct (mainB_run E C r_news w) as (jv & nv & out & Hj' & Hn' & Hm).
  rewrite Hj in Hj'. rewrite Hn in Hn'.
  inversion Hj'; inversion Hn'; subst jv nv. cbv zeta in Hm. rewrite Hm.
  cbn [snd files show]. fold d.
  assert (forall file old text fs,
    terminated old -> occ LF text = 0 ->
    readFile fs file = Some (old ++ (str "[" ++ d ++ str "] " ++ text) ++ [LF])
    -> getLastLine fs file = trimEnd (str "[" ++ d ++ str "] " ++ text))
    as Hlast.
  { intros file old text fs Hold Htext Hfs.
    rewrite <- (appended_line_is_last [(file, old)] file
                  (str "[" ++ d ++ str "] " ++ text)).
    - apply getLastLine_ext.
      rewrite Hfs, readFile_append_same. simpl. now rewrite str_eqb_refl.
    - unfold content_of. simpl. now rewrite str_eqb_refl.
    - subst d. rewrite !occ_app, Hdate, Htext. reflexivity.
    - reflexivity. }
  split; read_files.
  - rewrite (Hlast (str "jokes.txt")
               (content_of (files w) (str "jokes.txt")) joke);
      [reflexivity|assumption..|].
    read_files. unfold content_of. now rewrite <- !app_assoc.
  - rewrite (Hlast (str "news.txt")
               (content_of (files w) (str "news.txt")) news);
      [reflexivity|assumption..|].
    read_files. unfold content_of. now rewrite <- !app_assoc.
Qed.

Lemma scriptB_badges_witness :
  readFile
    (files (snd (ScriptB.script (offlineB_groq_key (1 # 2)) sample_clockB
                   (1 # 2) fresh_world))) (str "joke.svg")
  = Some (svgDocument 60 (str "Daily Joke")
            (str "[1970-01-04] A programmer walks into a bar and orders 1.000000119 beers.")
            (str "#3fb950") (str "1970-01-04")).
Proof.
  destruct (scriptB_badges (offlineB_groq_key (1 # 2)) sample_clockB (1 # 2)
              fresh_world) as (joke & news & Hj & _ & Hbadge & _);
    [ now right | vm_compute; discriminate | reflexivity
    | vm_compute; discriminate | reflexivity | reflexivity
    | now left | now left | ].
  rewrite Hbadge. vm_compute in Hj. inversion Hj. reflexivity.
Defined.

(* ================================================================== *)
(** * The choice of the news backend *)

Lemma scriptA_fetch_fails (E : VariantA.env) (C : ScriptA.clock) (w : world)
  (e : error) :
  outcome (ScriptA.requestHeadline E C) = inl e ->
  exit_code (ScriptA.script E C w) = 1
  /\ files (snd (ScriptA.script E C w)) = files w.
Proof.
  intros He. rewrite scriptA_run, (mainA_fetch_fails E C w e He).
  now destruct (negb (VariantA.groq E) && negb (VariantA.geminiAI E)
                && negb (VariantA.NEWS_API_KEY E)
                && negb (VariantA.NEWS_API_KEY_2 E)).
Qed.

(** X20. The news backend is chosen by the parity of the day of the
    month and there is no fallback from one backend to the other: on
    an even day a missing GNews key ends the run with status 1 and no
    file touched even when the NewsAPI key is set, and on an odd day
    the same holds with the two keys exchanged. *)
Theorem scriptA_no_news_fallback (E : VariantA.env) (C : ScriptA.clock)
  (w : world) :
  (ScriptA.getDate C mod 2 = 0 -> VariantA.NEWS_API_KEY_2 E = false ->
   outcome (ScriptA.requestHeadline E C) = inl (Error (str "No GNews"))
   /\ exit_code (ScriptA.script E C w) = 1
   /\ files (snd (ScriptA.script E C w)) = files w)
  /\ (ScriptA.getDate C mod 2 <> 0 -> VariantA.NEWS_API_KEY E = false ->
      outcome (ScriptA.requestHeadline E C) = inl (Error (str "No NewsAPI"))
      /\ exit_code (ScriptA.script E C w) = 1
      /\ files (snd (ScriptA.script E C w)) = files w).
Proof.
  split; intros Hday Hkey.
  - assert (outcome (ScriptA.requestHeadline E C)
            = inl (Error (str "No GNews"))) as He.
    { unfold ScriptA.requestHeadline, ScriptA.useGNews, VariantA.fetchGNews.
      apply Nat.eqb_eq in Hday. now rewrite Hday, Hkey. }
    split; [exact He|]. now apply (scriptA_fetch_fails E C w _ He).
  - assert (outcome (ScriptA.requestHeadline E C)
            = inl (Error (str "No NewsAPI"))) as He.
    { unfold ScriptA.requestHeadline, ScriptA.useGNews, VariantA.fetchNewsAPI.
      apply Nat.eqb_neq in Hday. now rewrite Hday, Hkey. }
    split; [exact He|]. now apply (scriptA_fetch_fails E C w _ He).
Qed.

Lemma scriptA_no_news_fallback_witness :
  exit_code
    (ScriptA.script
       {| VariantA.groq := true; VariantA.geminiAI := true;
          VariantA.NEWS_API_KEY := true; VariantA.NEWS_API_KEY_2 := false;
          VariantA.groq_create := fun _ => inr (one_chunk (str "A joke."));
          VariantA.gemini_generateContent := fun _ => unreachable;
          VariantA.newsapi_fetch :=
            fun _ => inr (Some {| articles :=
                                    Some [ {| title := Some (str "News") |} ] |});
          VariantA.gnews_fetch := fun _ => unreachable |}
       sample_clockA fresh_world) = 1.
Proof.
  refine (proj1 (proj2 (proj1 (scriptA_no_news_fallback _ sample_clockA
                                 fresh_world) _ _))); reflexivity.
Defined.
